(** * cpp-demo-lambdas: callbacks, functors, lambdas and sort predicates

    A shallow embedding of [main.cpp].  The program talks to the console:
    [std::cin] supplies integers, [std::cout] receives text, and the C
    library's [rand] supplies the value that selects a handler.  These three
    are the fields of [World]; every routine of the program is a function
    that threads a [World].

    A C++ [int] is modelled as [Z]: the program only compares and prints the
    integers it reads, it never computes with them, so no wrap-around can
    occur. *)

From Stdlib Require Import ZArith List String Ascii Bool Lia Arith.
From Stdlib Require Import DecimalString Sorting.Sorted Sorting.Permutation.
From Stdlib Require Import Zquot.
Import ListNotations.

Local Open Scope string_scope.
Local Open Scope Z_scope.
Local Open Scope list_scope.

(** ** The console *)

(** [cin] is the sequence of integers that successive extractions
    [std::cin >> n] deliver and [cin_pos] the number of extractions done so
    far.  [rnd] and [rnd_pos] are the same for the results of [std::rand()]
    (after the re-seeding of [GenerateRandomNumber]).  [cout] is the text
    written so far, one entry per output statement, oldest first: the
    character stream on the terminal is their concatenation. *)
Record World : Type := mkWorld {
  cin : nat -> Z;
  cin_pos : nat;
  rnd : nat -> Z;
  rnd_pos : nat;
  cout : list string
}.

(** [std::endl] *)
Definition endl : string := String (ascii_of_nat 10) EmptyString.

(** A statement [std::cout << ... ;] *)
Definition print (s : string) (w : World) : World :=
  mkWorld (cin w) (cin_pos w) (rnd w) (rnd_pos w) (cout w ++ [s]).

(** [operator<<(int)] *)
Definition show_int (n : Z) : string := NilZero.string_of_int (Z.to_int n).

Definition alert_line : string := ("Alert!" ++ endl)%string.
Definition new_value_line (n : Z) : string :=
  ("New value: " ++ show_int n ++ endl)%string.
Definition hello_line : string := ("Hello from lambda!" ++ endl)%string.
Definition prompt : string := "Enter the next integer (0 for exit): ".

(** An [int] used as a condition: non-zero is true. *)
Definition truthy (z : Z) : bool := negb (z =? 0).

(** The type behind [NewValueHandlerFnPtr], [void( * )(int)]. *)
Definition NewValueHandlerFnPtr : Type := Z -> World -> World.

(** ** Handlers *)

Definition IntHandler1 (n : Z) (w : World) : World :=
  let Threshold := 50 in
  if n >? Threshold then print alert_line w else w.

Definition IntHandler2 (n : Z) (w : World) : World :=
  print (new_value_line n) w.

(** [n] starts as 0 and an extraction that fails at the end of the input
    leaves it so: an input that ends is a source that delivers zeros from
    there on. *)
Definition FetchValue (w : World) : Z * World :=
  let w1 := print prompt w in
  let n := cin w1 (cin_pos w1) in
  (n, mkWorld (cin w1) (S (cin_pos w1)) (rnd w1) (rnd_pos w1) (cout w1)).

Definition GenerateRandomNumber (w : World) : Z * World :=
  (rnd w (rnd_pos w),
   mkWorld (cin w) (cin_pos w) (rnd w) (S (rnd_pos w)) (cout w)).

(** ** Event loops

    Each loop is a [do { ... } while (n != 0);].  [fuel] bounds the number of
    iterations; [None] means that the loop is still running when the fuel is
    spent. *)

Fixpoint HardcodedHandlerDemo (fuel : nat) (w : World) : option World :=
  match fuel with
  | O => None
  | S fuel' =>
      let (n, w1) := FetchValue w in
      let w2 := if n >? 50 then print alert_line w1 else w1 in
      if n =? 0 then Some w2 else HardcodedHandlerDemo fuel' w2
  end.

(** The loop of [HandlerSetInRuntimeDemo], after [handler] is chosen. *)
Fixpoint HandlerSetInRuntime_loop (fuel : nat) (handler : NewValueHandlerFnPtr)
  (w : World) : option World :=
  match fuel with
  | O => None
  | S fuel' =>
      let (n, w1) := FetchValue w in
      let w2 := handler n w1 in
      if n =? 0 then Some w2 else HandlerSetInRuntime_loop fuel' handler w2
  end.

Definition HandlerSetInRuntimeDemo (fuel : nat) (w : World) : option World :=
  let (r, w1) := GenerateRandomNumber w in
  let handler := if truthy (Z.rem r 2) then IntHandler1 else IntHandler2 in
  HandlerSetInRuntime_loop fuel handler w1.

(** The function object: its only member is [alert_threshold_]. *)
Record NewValueHandler : Type := mkNewValueHandler {
  alert_threshold_ : Z
}.

(** The constructor [NewValueHandler(int alert_threshold)]. *)
Definition NewValueHandler_ctor (alert_threshold : Z) : NewValueHandler :=
  mkNewValueHandler alert_threshold.

(** [NewValueHandler::operator()(int) const].  A member function works on the
    object and on the world; it returns both. *)
Definition NewValueHandler_call (self : NewValueHandler) (value : Z) (w : World)
  : NewValueHandler * World :=
  if value >? alert_threshold_ self
  then (self, print alert_line w)
  else (self, w).

Fixpoint FunctorDemo_loop (fuel : nat) (handler : NewValueHandler) (w : World)
  : option (NewValueHandler * World) :=
  match fuel with
  | O => None
  | S fuel' =>
      let (n, w1) := FetchValue w in
      let (handler', w2) := NewValueHandler_call handler n w1 in
      if n =? 0 then Some (handler', w2) else FunctorDemo_loop fuel' handler' w2
  end.

Definition FunctorDemo (fuel : nat) (w : World) : option World :=
  let handler := NewValueHandler_ctor 50 in
  option_map snd (FunctorDemo_loop fuel handler w).

Fixpoint RunEventLoop (fuel : nat) (handler : NewValueHandlerFnPtr) (w : World)
  : option World :=
  match fuel with
  | O => None
  | S fuel' =>
      let (n, w1) := FetchValue w in
      let w2 := handler n w1 in
      if n =? 0 then Some w2 else RunEventLoop fuel' handler w2
  end.

Definition EventHandlerPassedAsAnArgumentDemo (fuel : nat) (w : World)
  : option World :=
  let (r, w1) := GenerateRandomNumber w in
  let handler := if truthy (Z.rem r 2) then IntHandler1 else IntHandler2 in
  RunEventLoop fuel handler w1.

Definition EventHandlerIsLambdaDemo (fuel : nat) (w : World) : option World :=
  RunEventLoop fuel (fun n w' => print (new_value_line n) w') w.

(** ** Lambda expressions

    The local variables of [LambdaDemo] live in its stack frame.  The frame
    exists from the entry of the function, with indeterminate contents
    (the argument [l0] of [LambdaDemo]); a declaration initialises its slot. *)
Record Locals : Type := mkLocals {
  str : string;
  str2 : string;
  threshold : Z;
  i : Z;
  j : Z
}.

Definition set_str (s : string) (l : Locals) : Locals :=
  mkLocals s (str2 l) (threshold l) (i l) (j l).
Definition set_str2 (s : string) (l : Locals) : Locals :=
  mkLocals (str l) s (threshold l) (i l) (j l).
Definition set_threshold (z : Z) (l : Locals) : Locals :=
  mkLocals (str l) (str2 l) z (i l) (j l).
Definition set_i (z : Z) (l : Locals) : Locals :=
  mkLocals (str l) (str2 l) (threshold l) z (j l).
Definition set_j (z : Z) (l : Locals) : Locals :=
  mkLocals (str l) (str2 l) (threshold l) (i l) z.

(** A statement of [LambdaDemo] transforms its frame and the world. *)
Definition Stmt : Type := Locals * World -> Locals * World.

(** Evaluating and calling a lambda with a capture list by value ([[]],
    [[x]] or [[=]]): [capture] copies the captured variables out of the frame
    into the closure object; the call operator, which is [const], gets the
    closure object and the argument and acts on the world. *)
Definition call_by_value {C A : Type} (capture : Locals -> C)
  (body : C -> A -> World -> World) (arg : A) : Stmt :=
  fun st =>
    let closure := capture (fst st) in
    (fst st, body closure arg (snd st)).

(** Evaluating and calling a lambda that captures by reference ([[&x]] or
    [[&]]): the closure object holds references into the frame, so that the
    body reads and writes the caller's variables. *)
Definition call_by_reference {A : Type}
  (body : A -> Locals * World -> Locals * World) (arg : A) : Stmt :=
  fun st => body arg st.

(** A declaration with an initialiser. *)
Definition declare {A : Type} (set : A -> Locals -> Locals)
  (init : Locals * World -> A) : Stmt :=
  fun st => (set (init st) (fst st), snd st).

(** The closure type of a lambda that captures nothing. *)
Definition no_capture (_ : Locals) : unit := tt.

(** The capture list [[=]] of line 170 copies [threshold] and [i]. *)
Definition LambdaDemo_body : list Stmt :=
  [ (* [](int n) { std::cout << "New value: " << n << std::endl; }(123); *)
    call_by_value no_capture (fun _ n => print (new_value_line n)) 123;
    (* []() { std::cout << "Hello from lambda!" << std::endl; }(); *)
    call_by_value no_capture (fun _ _ => print hello_line) tt;
    (* [](){}(); *)
    call_by_value no_capture (fun _ _ w => w) tt;
    (* auto str = []() { return std::string("Hello from lambda!"); }(); *)
    declare set_str (fun _ => (fun _ : unit => "Hello from lambda!") tt);
    (* auto str2 = []() -> std::string { return ...; }(); *)
    declare set_str2 (fun _ => (fun _ : unit => "Hello from lambda!") tt);
    (* int threshold = 50; *)
    declare set_threshold (fun _ => 50);
    (* [threshold]() { std::cout << threshold << std::endl; }(); *)
    call_by_value threshold
      (fun threshold' _ => print (show_int threshold' ++ endl)%string) tt;
    (* int i = 1; *)
    declare set_i (fun _ => 1);
    (* [=]() { std::cout << threshold << ", " << i << std::endl; }(); *)
    call_by_value (fun l => (threshold l, i l))
      (fun c _ =>
         print (show_int (fst c) ++ ", " ++ show_int (snd c) ++ endl)%string) tt;
    (* [&i](){ i = 1; }(); *)
    call_by_reference (fun _ st => (set_i 1 (fst st), snd st)) tt;
    (* int j = 2; *)
    declare set_j (fun _ => 2);
    (* [&]() { i = 11; j = 22; }(); *)
    call_by_reference
      (fun _ st => let l1 := set_i 11 (fst st) in
                   let l2 := set_j 22 l1 in
                   (l2, snd st)) tt;
    (* auto lambda = []() { ... }; lambda(); *)
    call_by_value no_capture (fun _ _ => print hello_line) tt ].

Definition exec (body : list Stmt) (st : Locals * World) : Locals * World :=
  fold_left (fun s stmt => stmt s) body st.

(** [LambdaDemo] returns nothing; the frame it ends with is kept for the
    statements about its local variables. *)
Definition LambdaDemo (l0 : Locals) (w : World) : Locals * World :=
  exec LambdaDemo_body (l0, w).

(** The state of [LambdaDemo] after its first [k] statements. *)
Definition LambdaDemo_after (k : nat) (l0 : Locals) (w : World)
  : Locals * World :=
  exec (firstn k LambdaDemo_body) (l0, w).

(** ** Predicates for [std::sort] *)

(** [Comparer::operator()(const int&, const int&) const] *)
Definition Comparer_call (a b : Z) : bool := a >? b.

(** [std::less<int>], the order of the two-argument [std::sort]. *)
Definition less (a b : Z) : bool := a <? b.

(** The insertion step of the sort below: [x] goes in front of the first
    element that [comp] puts it before. *)
Fixpoint insert_sorted (comp : Z -> Z -> bool) (x : Z) (l : list Z) : list Z :=
  match l with
  | [] => [x]
  | y :: l' => if comp x y then x :: y :: l' else y :: insert_sorted comp x l'
  end.

(** Modelled from the spec: [std::sort], which the C++ standard library
    supplies and the program's source does not contain.  The spec asks of a
    sort with an order predicate that it return the same values, rearranged
    in the order of the predicate.  Insertion sort (which is what the library
    runs on a range this short) does so; [std_sort_unique] below shows that
    for the orders used here every algorithm that returns a sorted
    rearrangement returns this list, and [meets_sort_contract] states what
    any implementation owes. *)
Definition std_sort (comp : Z -> Z -> bool) (v : list Z) : list Z :=
  fold_right (insert_sorted comp) [] v.

(** [operator==] on [std::vector<int>] *)
Definition vector_eq (a b : list Z) : bool :=
  if list_eq_dec Z.eq_dec a b then true else false.

(** The outcome of a routine that may stop in a failed [assert] or may still
    be running when its fuel is spent. *)
Inductive Outcome (A : Type) : Type :=
| Done (a : A)
| Running
| AssertionFailed.
Arguments Done {A} a.
Arguments Running {A}.
Arguments AssertionFailed {A}.

Definition bind {A B : Type} (m : Outcome A) (k : A -> Outcome B) : Outcome B :=
  match m with
  | Done a => k a
  | Running => Running
  | AssertionFailed => AssertionFailed
  end.

Notation "x <- m ;; k" := (bind m (fun x => k))
  (at level 61, m at next level, right associativity).

Definition assert (b : bool) : Outcome unit :=
  if b then Done tt else AssertionFailed.

Definition of_loop {A : Type} (r : option A) : Outcome A :=
  match r with
  | Some a => Done a
  | None => Running
  end.

(** [PredicateDemo] returns nothing; the final contents of [v] are kept. *)
Definition PredicateDemo : Outcome (list Z) :=
  let v := [3; 2; 6; 9; 1; 5] in
  let v_sorted_increasing := [1; 2; 3; 5; 6; 9] in
  let v_sorted_decreasing := [9; 6; 5; 3; 2; 1] in
  let v := std_sort less v in
  _ <- assert (vector_eq v v_sorted_increasing) ;;
  let v := std_sort Comparer_call v in
  _ <- assert (vector_eq v v_sorted_decreasing) ;;
  Done v.

Definition LambdaAsPredicateDemo : Outcome (list Z) :=
  let v := [3; 2; 6; 9; 1; 5] in
  let v_sorted_increasing := [1; 2; 3; 5; 6; 9] in
  let v_sorted_decreasing := [9; 6; 5; 3; 2; 1] in
  let v := std_sort less v in
  _ <- assert (vector_eq v v_sorted_increasing) ;;
  let v := std_sort (fun a b => a >? b) v in
  _ <- assert (vector_eq v v_sorted_decreasing) ;;
  Done v.

(** ** The entry point

    [main] takes no arguments.  It returns the exit code and the world it
    leaves. *)
Definition main (fuel : nat) (l0 : Locals) (w : World) : Outcome (Z * World) :=
  w <- of_loop (HardcodedHandlerDemo fuel w) ;;
  w <- of_loop (HandlerSetInRuntimeDemo fuel w) ;;
  w <- of_loop (FunctorDemo fuel w) ;;
  w <- of_loop (EventHandlerPassedAsAnArgumentDemo fuel w) ;;
  w <- of_loop (EventHandlerIsLambdaDemo fuel w) ;;
  let w := snd (LambdaDemo l0 w) in
  _ <- PredicateDemo ;;
  _ <- LambdaAsPredicateDemo ;;
  Done (0, w).

(** * Properties *)

(** ** Vocabulary *)

(** A handler that leaves the value source alone: it does not extract from
    [std::cin] itself. *)
Definition keeps_cin (h : NewValueHandlerFnPtr) : Prop :=
  forall v w, cin (h v w) = cin w /\ cin_pos (h v w) = cin_pos w.

(** One turn of the loop on the value [v]: the prompt and the extraction of
    [FetchValue], then one invocation of the handler on [v]. *)
Definition dispatch (h : NewValueHandlerFnPtr) (w : World) (v : Z) : World :=
  h v (snd (FetchValue w)).

(** The next [n] values that the source of [w] will deliver. *)
Definition upcoming (w : World) (n : nat) : list Z :=
  map (fun k => cin w (cin_pos w + k)%nat) (seq 0 n).

(** A source that delivers the values of [l] and zeros afterwards. *)
Definition stream_of_list (l : list Z) : nat -> Z := fun k => nth k l 0.

(** A fresh console in front of the source [s]. *)
Definition console (s : nat -> Z) (r : nat -> Z) : World :=
  mkWorld s 0 r 0 [].

(** The number of alerts on the output. *)
Definition alerts (w : World) : nat := count_occ string_dec (cout w) alert_line.

(** The handler object after a sequence of calls of its call operator. *)
Fixpoint NewValueHandler_calls (self : NewValueHandler) (values : list Z)
  (w : World) : NewValueHandler * World :=
  match values with
  | [] => (self, w)
  | value :: values' =>
      let (self', w') := NewValueHandler_call self value w in
      NewValueHandler_calls self' values' w'
  end.

(** The source has a 0 ahead of every position. *)
Definition zeros_ahead (w : World) : Prop :=
  forall k, exists m, (k <= m)%nat /\ cin w m = 0.

(** A demo that ends, given enough fuel, on every such source, and leaves
    the source such. *)
Definition ends (demo : nat -> World -> option World) : Prop :=
  forall w, zeros_ahead w ->
    exists fuel w', zeros_ahead w' /\
      forall fuel', (fuel <= fuel')%nat -> demo fuel' w = Some w'.

(** The world after the output statements [out], in that order. *)
Definition prints (out : list string) (w : World) : World :=
  mkWorld (cin w) (cin_pos w) (rnd w) (rnd_pos w) (cout w ++ out).

(** A handler that does nothing but write: on the value [v] it writes the
    entries [f v]. *)
Definition writes (h : NewValueHandlerFnPtr) (f : Z -> list string) : Prop :=
  forall v w, h v w = prints (f v) w.

(** What a threshold handler writes on a value. *)
Definition alert_if_above (T : Z) (v : Z) : list string :=
  if v >? T then [alert_line] else [].

(** The call operator of a handler object as a plain handler. *)
Definition as_handler (self : NewValueHandler) : NewValueHandlerFnPtr :=
  fun value w => snd (NewValueHandler_call self value w).

(** The number of zeros among the next [n] values. *)
Definition zeros_in (w : World) (n : nat) : nat :=
  count_occ Z.eq_dec (upcoming w n) 0.

(** [w'] is [w] after the extraction of one run of values: some values other
    than 0 and the 0 that follows them. *)
Definition one_run (w w' : World) : Prop :=
  cin w' = cin w /\
  exists k,
    (forall m, (m < k)%nat -> cin w (cin_pos w + m)%nat <> 0) /\
    cin w (cin_pos w + k)%nat = 0 /\
    cin_pos w' = (cin_pos w + S k)%nat.

(** What is outside the value source: [w'] has drawn [d] more random numbers
    than [w] and has only added to its output. *)
Definition drew_and_wrote (d : nat) (w w' : World) : Prop :=
  rnd w' = rnd w /\
  rnd_pos w' = (rnd_pos w + d)%nat /\
  exists out, cout w' = cout w ++ out.

(** What [std::sort] requires of its predicate: a strict weak ordering. *)
Definition strict_weak_ordering (comp : Z -> Z -> bool) : Prop :=
  (forall a, comp a a = false) /\
  (forall a b c, comp a b = true -> comp b c = true -> comp a c = true) /\
  (forall a b c,
     comp a b = false -> comp b a = false ->
     comp b c = false -> comp c b = false ->
     comp a c = false /\ comp c a = false).

(** A range is sorted with respect to [comp] when no element is put before
    its predecessor ([std::is_sorted]). *)
Definition sorted_by (comp : Z -> Z -> bool) (l : list Z) : Prop :=
  Sorted (fun a b => comp b a = false) l.

(** What any implementation of [std::sort] owes: given a strict weak
    ordering it rearranges the range and leaves it sorted with respect to
    the predicate. *)
Definition meets_sort_contract (sort : (Z -> Z -> bool) -> list Z -> list Z) : Prop :=
  forall comp l,
    strict_weak_ordering comp ->
    Permutation l (sort comp l) /\ sorted_by comp (sort comp l).

(** ** The loop, one turn at a time *)

Section EventLoop.

Variable h : NewValueHandlerFnPtr.
Hypothesis h_keeps : keeps_cin h.

Lemma RunEventLoop_turn (fuel : nat) (w : World) :
  RunEventLoop (S fuel) h w =
    if cin w (cin_pos w) =? 0
    then Some (dispatch h w (cin w (cin_pos w)))
    else RunEventLoop fuel h (dispatch h w (cin w (cin_pos w))).
Proof. reflexivity. Qed.

Lemma dispatch_cin (w : World) (v : Z) : cin (dispatch h w v) = cin w.
Proof. unfold dispatch. now rewrite (proj1 (h_keeps _ _)). Qed.

Lemma dispatch_cin_pos (w : World) (v : Z) :
  cin_pos (dispatch h w v) = S (cin_pos w).
Proof. unfold dispatch. now rewrite (proj2 (h_keeps _ _)). Qed.

Lemma upcoming_dispatch (w : World) (v : Z) (n : nat) :
  upcoming w (S n) = cin w (cin_pos w) :: upcoming (dispatch h w v) n.
Proof.
  unfold upcoming. rewrite dispatch_cin, dispatch_cin_pos.
  cbn [seq map]. rewrite Nat.add_0_r. f_equal.
  rewrite <- seq_shift, map_map.
  apply map_ext. intros k. f_equal. lia.
Qed.

Lemma fold_dispatch_cin (vs : list Z) (w : World) :
  cin (fold_left (dispatch h) vs w) = cin w /\
  cin_pos (fold_left (dispatch h) vs w) = (cin_pos w + List.length vs)%nat.
Proof.
  revert w. induction vs as [|v vs IH]; intros w; cbn [fold_left List.length].
  - split; [reflexivity | lia].
  - destruct (IH (dispatch h w v)) as [E1 E2].
    rewrite E1, E2, dispatch_cin, dispatch_cin_pos. split; [reflexivity | lia].
Qed.

(** With the first zero [k] values ahead, the loop makes [k + 1] turns. *)
Lemma RunEventLoop_first_zero (k : nat) :
  forall (w : World) (fuel : nat),
    (forall m, (m < k)%nat -> cin w (cin_pos w + m)%nat <> 0) ->
    cin w (cin_pos w + k)%nat = 0 ->
    (k < fuel)%nat ->
    RunEventLoop fuel h w = Some (fold_left (dispatch h) (upcoming w (S k)) w).
Proof.
  induction k as [|k IH]; intros w fuel Hnz Hz Hfuel;
    (destruct fuel as [|fuel]; [lia|]);
    rewrite RunEventLoop_turn, (upcoming_dispatch w (cin w (cin_pos w))).
  - rewrite Nat.add_0_r in Hz. rewrite Hz. reflexivity.
  - specialize (Hnz 0%nat ltac:(lia)) as Hnow. rewrite Nat.add_0_r in Hnow.
    apply Z.eqb_neq in Hnow. rewrite Hnow. cbn [fold_left].
    apply IH; rewrite ?dispatch_cin, ?dispatch_cin_pos.
    + intros m Hm. replace (S (cin_pos w) + m)%nat with (cin_pos w + S m)%nat by lia.
      apply Hnz. lia.
    + now replace (S (cin_pos w) + k)%nat with (cin_pos w + S k)%nat by lia.
    + lia.
Qed.

(** As long as no zero is delivered the loop keeps running. *)
Lemma RunEventLoop_no_zero_yet (fuel : nat) :
  forall (w : World),
    (forall m, (m < fuel)%nat -> cin w (cin_pos w + m)%nat <> 0) ->
    RunEventLoop fuel h w = None.
Proof.
  induction fuel as [|fuel IH]; intros w Hnz; [reflexivity|].
  rewrite RunEventLoop_turn.
  specialize (Hnz 0%nat ltac:(lia)) as Hnow. rewrite Nat.add_0_r in Hnow.
  apply Z.eqb_neq in Hnow. rewrite Hnow.
  apply IH. intros m Hm. rewrite dispatch_cin, dispatch_cin_pos.
  replace (S (cin_pos w) + m)%nat with (cin_pos w + S m)%nat by lia.
  apply Hnz. lia.
Qed.

(** A loop that has ended has read a zero. *)
Lemma RunEventLoop_ended_read_zero (fuel : nat) :
  forall (w w' : World),
    RunEventLoop fuel h w = Some w' ->
    exists k, (k < fuel)%nat /\ cin w (cin_pos w + k)%nat = 0 /\
              forall m, (m < k)%nat -> cin w (cin_pos w + m)%nat <> 0.
Proof.
  induction fuel as [|fuel IH]; intros w w' Hrun; [discriminate|].
  rewrite RunEventLoop_turn in Hrun.
  destruct (cin w (cin_pos w) =? 0) eqn:Hnow.
  - exists 0%nat. rewrite Nat.add_0_r. apply Z.eqb_eq in Hnow.
    repeat split; [lia | assumption | intros m Hm; lia].
  - apply IH in Hrun as (k & Hk & Hz & Hnz).
    rewrite dispatch_cin, dispatch_cin_pos in Hz.
    exists (S k). repeat split.
    + lia.
    + now replace (cin_pos w + S k)%nat with (S (cin_pos w) + k)%nat by lia.
    + intros [|m] Hm.
      * rewrite Nat.add_0_r. now apply Z.eqb_neq.
      * specialize (Hnz m ltac:(lia)).
        rewrite dispatch_cin, dispatch_cin_pos in Hnz.
        now replace (cin_pos w + S m)%nat with (S (cin_pos w) + m)%nat by lia.
Qed.

End EventLoop.

(** The first zero among values known to contain one. *)
Lemma first_zero (s : nat -> Z) (k : nat) :
  s k = 0 ->
  exists k0, (k0 <= k)%nat /\ s k0 = 0 /\ forall m, (m < k0)%nat -> s m <> 0.
Proof.
  induction k as [k IH] using lt_wf_ind. intros Hz.
  destruct (existsb (fun m => s m =? 0) (seq 0 k)) eqn:E.
  - apply existsb_exists in E as (m & Hin & Hm).
    apply in_seq in Hin. apply Z.eqb_eq in Hm.
    destruct (IH m ltac:(lia) Hm) as (k0 & ? & ? & ?).
    exists k0. repeat split; [lia | assumption | assumption].
  - exists k. repeat split; [lia | assumption |].
    intros m Hm Hzero.
    assert (existsb (fun m => s m =? 0) (seq 0 k) = true) as E'.
    { apply existsb_exists. exists m. split; [apply in_seq; lia | now apply Z.eqb_eq]. }
    congruence.
Qed.

Lemma upcoming_length (w : World) (n : nat) : List.length (upcoming w n) = n.
Proof. unfold upcoming. now rewrite length_map, length_seq. Qed.

Lemma upcoming_nth (w : World) (n m : nat) :
  (m < n)%nat -> nth m (upcoming w n) 0 = cin w (cin_pos w + m)%nat.
Proof.
  intros Hm. unfold upcoming.
  rewrite (nth_indep _ 0 (cin w (cin_pos w + 0)%nat))
    by now rewrite length_map, length_seq.
  rewrite (map_nth (fun k => cin w (cin_pos w + k)%nat)).
  now rewrite seq_nth.
Qed.

Lemma upcoming_snoc (w : World) (n : nat) :
  upcoming w (S n) = upcoming w n ++ [cin w (cin_pos w + n)%nat].
Proof. unfold upcoming. now rewrite seq_S, map_app. Qed.

Lemma upcoming_nonzero (w : World) (k : nat) :
  (forall m, (m < k)%nat -> cin w (cin_pos w + m)%nat <> 0) ->
  Forall (fun v => v <> 0) (upcoming w k).
Proof.
  intros Hnz. apply Forall_forall. intros v Hin.
  unfold upcoming in Hin. apply in_map_iff in Hin as (m & <- & Hm).
  apply in_seq in Hm. apply Hnz. lia.
Qed.

(** What a source delivers when [vs ++ [0]] is what comes next. *)
Lemma upcoming_sentinel (w : World) (vs : list Z) :
  Forall (fun v => v <> 0) vs ->
  upcoming w (List.length (vs ++ [0])) = vs ++ [0] ->
  (forall m, (m < List.length vs)%nat -> cin w (cin_pos w + m)%nat <> 0) /\
  cin w (cin_pos w + List.length vs)%nat = 0.
Proof.
  intros Hvs Hup. rewrite length_app in Hup. cbn [List.length] in Hup. split.
  - intros m Hm. rewrite <- (upcoming_nth w (List.length vs + 1)) by lia.
    rewrite Hup, app_nth1 by assumption.
    rewrite Forall_forall in Hvs. apply Hvs, nth_In, Hm.
  - rewrite <- (upcoming_nth w (List.length vs + 1)) by lia.
    rewrite Hup, app_nth2, Nat.sub_diag by lia. reflexivity.
Qed.

Lemma IntHandler1_keeps_cin : keeps_cin IntHandler1.
Proof.
  intros v w. unfold IntHandler1. destruct (v >? 50); split; reflexivity.
Qed.

Lemma IntHandler2_keeps_cin : keeps_cin IntHandler2.
Proof. intros v w. split; reflexivity. Qed.

(** ** The loop variants against [RunEventLoop] *)

Lemma HardcodedHandlerDemo_as_RunEventLoop (fuel : nat) :
  forall w, HardcodedHandlerDemo fuel w = RunEventLoop fuel IntHandler1 w.
Proof.
  induction fuel as [|fuel IH]; intros w; [reflexivity|].
  cbn [HardcodedHandlerDemo RunEventLoop].
  destruct (FetchValue w) as [n w1]. unfold IntHandler1 at 1 3.
  destruct (n =? 0); [reflexivity | apply IH].
Qed.

Lemma HandlerSetInRuntime_loop_as_RunEventLoop (fuel : nat) (h : NewValueHandlerFnPtr) :
  forall w, HandlerSetInRuntime_loop fuel h w = RunEventLoop fuel h w.
Proof.
  induction fuel as [|fuel IH]; intros w; [reflexivity|].
  cbn [HandlerSetInRuntime_loop RunEventLoop].
  destruct (FetchValue w) as [n w1].
  destruct (n =? 0); [reflexivity | apply IH].
Qed.

Lemma NewValueHandler_50_as_IntHandler1 (self : NewValueHandler) (n : Z) (w : World) :
  alert_threshold_ self = 50 ->
  NewValueHandler_call self n w = (self, IntHandler1 n w).
Proof.
  intros E. unfold NewValueHandler_call, IntHandler1. rewrite E.
  destruct (n >? 50); reflexivity.
Qed.

Lemma FunctorDemo_loop_as_RunEventLoop (fuel : nat) (self : NewValueHandler) :
  alert_threshold_ self = 50 ->
  forall w, FunctorDemo_loop fuel self w =
            option_map (pair self) (RunEventLoop fuel IntHandler1 w).
Proof.
  intros E. induction fuel as [|fuel IH]; intros w; [reflexivity|].
  cbn [FunctorDemo_loop RunEventLoop].
  destruct (FetchValue w) as [n w1].
  rewrite (NewValueHandler_50_as_IntHandler1 self n w1 E).
  destruct (n =? 0); [reflexivity | apply IH].
Qed.

Lemma FunctorDemo_as_RunEventLoop (fuel : nat) (w : World) :
  FunctorDemo fuel w = RunEventLoop fuel IntHandler1 w.
Proof.
  unfold FunctorDemo. rewrite FunctorDemo_loop_as_RunEventLoop by reflexivity.
  destruct (RunEventLoop fuel IntHandler1 w); reflexivity.
Qed.

(** ** The event loop *)

(** C1.  Let the handler [H] leave the value source alone and let the source
    deliver next the values [vs] (none of them 0) and then a 0.  Then
    [RunEventLoop] makes exactly one turn per element of [vs ++ [0]], in that
    order, each turn invoking [H] once on its element; the last invocation is
    the one on the 0, and the loop ends right after it: it ends with any fuel
    of at least the length of [vs ++ [0]], with no less, and it has then
    extracted exactly that many values. *)
Theorem RunEventLoop_invokes_handler_on_each_value :
  forall (H : NewValueHandlerFnPtr) (vs : list Z) (w : World),
    keeps_cin H ->
    Forall (fun v => v <> 0) vs ->
    upcoming w (List.length (vs ++ [0])) = vs ++ [0] ->
    (forall fuel, (List.length (vs ++ [0%Z]) <= fuel)%nat ->
       RunEventLoop fuel H w = Some (fold_left (dispatch H) (vs ++ [0]) w)) /\
    (forall fuel, (fuel < List.length (vs ++ [0%Z]))%nat ->
       RunEventLoop fuel H w = None) /\
    fold_left (dispatch H) (vs ++ [0]) w =
      H 0 (snd (FetchValue (fold_left (dispatch H) vs w))) /\
    cin_pos (fold_left (dispatch H) (vs ++ [0]) w) =
      (cin_pos w + List.length (vs ++ [0%Z]))%nat.
Proof.
  intros H vs w HH Hvs Hup.
  destruct (upcoming_sentinel w vs Hvs Hup) as [Hnz Hz].
  assert (List.length (vs ++ [0]) = S (List.length vs)) as Hlen
    by (rewrite length_app; cbn; lia).
  rewrite Hlen in *. repeat split.
  - intros fuel Hfuel. rewrite <- Hup.
    apply RunEventLoop_first_zero; try assumption; lia.
  - intros fuel Hfuel. apply RunEventLoop_no_zero_yet; [assumption|].
    intros m Hm. apply Hnz. lia.
  - now rewrite fold_left_app.
  - rewrite (proj2 (fold_dispatch_cin H HH _ _)), Hlen. reflexivity.
Qed.

Lemma RunEventLoop_invokes_handler_on_each_value_witness :
  keeps_cin IntHandler2 /\
  Forall (fun v => v <> 0) [61; 10] /\
  RunEventLoop 3 IntHandler2 (console (stream_of_list [61; 10; 0; 7]) (fun _ => 0)) =
    Some (fold_left (dispatch IntHandler2) [61; 10; 0]
            (console (stream_of_list [61; 10; 0; 7]) (fun _ => 0))).
Proof.
  assert (Forall (fun v => v <> 0) [61; 10]) as Hvs
    by (repeat constructor; discriminate).
  split; [exact IntHandler2_keeps_cin | split; [exact Hvs|]].
  apply (RunEventLoop_invokes_handler_on_each_value IntHandler2 [61; 10]
           (console (stream_of_list [61; 10; 0; 7]) (fun _ => 0))
           IntHandler2_keeps_cin Hvs eq_refl).
  cbn. lia.
Defined.

(** C2.  For a handler [H] that leaves the value source alone, the loop ends
    if and only if the source delivers a 0; a source that never delivers a 0
    keeps the loop running for ever, whatever the fuel.  When the loop ends
    it has read some [k] values other than 0 and then a 0, and its result is
    what one invocation of [H] per value read, in the order read, produces:
    once on each of the [k] non-terminal values and then on the 0.  The
    hardcoded loop ends under the same condition. *)
Theorem event_loop_ends_iff_zero_is_read :
  forall (H : NewValueHandlerFnPtr) (w : World),
    keeps_cin H ->
    ((exists fuel w', RunEventLoop fuel H w = Some w') <->
     (exists k, cin w (cin_pos w + k)%nat = 0)) /\
    ((forall k, cin w (cin_pos w + k)%nat <> 0) ->
     forall fuel, RunEventLoop fuel H w = None) /\
    (forall fuel w', RunEventLoop fuel H w = Some w' ->
       exists k, (k < fuel)%nat /\
         Forall (fun v => v <> 0) (upcoming w k) /\
         upcoming w (S k) = upcoming w k ++ [0] /\
         w' = dispatch H (fold_left (dispatch H) (upcoming w k) w) 0 /\
         cin_pos w' = (cin_pos w + S k)%nat) /\
    ((exists fuel w', HardcodedHandlerDemo fuel w = Some w') <->
     (exists k, cin w (cin_pos w + k)%nat = 0)).
Proof.
  intros H w HH.
  assert (forall h, keeps_cin h ->
            ((exists fuel w', RunEventLoop fuel h w = Some w') <->
             (exists k, cin w (cin_pos w + k)%nat = 0))) as Hiff.
  { intros h Hh. split.
    - intros (fuel & w' & Hrun).
      destruct (RunEventLoop_ended_read_zero h Hh fuel w w' Hrun) as (k & _ & Hz & _).
      now exists k.
    - intros (k & Hz).
      destruct (first_zero (fun m => cin w (cin_pos w + m)%nat) k Hz)
        as (k0 & _ & Hz0 & Hnz0).
      exists (S k0). eexists.
      apply (RunEventLoop_first_zero h Hh k0 w (S k0) Hnz0 Hz0). lia. }
  repeat split.
  - apply (proj1 (Hiff H HH)).
  - apply (proj2 (Hiff H HH)).
  - intros Hnz fuel. apply RunEventLoop_no_zero_yet; [assumption|].
    intros m _. apply Hnz.
  - intros fuel w' Hrun.
    destruct (RunEventLoop_ended_read_zero H HH fuel w w' Hrun) as (k & Hk & Hz & Hnz).
    assert (w' = fold_left (dispatch H) (upcoming w (S k)) w) as ->
      by (rewrite (RunEventLoop_first_zero H HH k w fuel Hnz Hz Hk) in Hrun;
          congruence).
    exists k. rewrite upcoming_snoc, Hz, fold_left_app. cbn [fold_left].
    repeat split; try assumption.
    + now apply upcoming_nonzero.
    + rewrite (dispatch_cin_pos H HH), (proj2 (fold_dispatch_cin H HH _ _)).
      rewrite upcoming_length. lia.
  - intros (fuel & w' & Hrun). rewrite HardcodedHandlerDemo_as_RunEventLoop in Hrun.
    apply (proj1 (Hiff IntHandler1 IntHandler1_keeps_cin)). eauto.
  - intros Hz.
    destruct (proj2 (Hiff IntHandler1 IntHandler1_keeps_cin) Hz) as (fuel & w' & Hrun).
    exists fuel, w'. now rewrite HardcodedHandlerDemo_as_RunEventLoop.
Qed.

Lemma event_loop_ends_iff_zero_is_read_witness :
  keeps_cin IntHandler1 /\
  ((exists fuel w',
      RunEventLoop fuel IntHandler1
        (console (stream_of_list [61; 10]) (fun _ => 0)) = Some w') <->
   (exists k, stream_of_list [61; 10] (0 + k)%nat = 0)).
Proof.
  split; [exact IntHandler1_keeps_cin |].
  exact (proj1 (event_loop_ends_iff_zero_is_read IntHandler1
                  (console (stream_of_list [61; 10]) (fun _ => 0))
                  IntHandler1_keeps_cin)).
Defined.

(** ** Alerts *)

Lemma print_changes_cout (s : string) (w : World) : print s w <> w.
Proof.
  intros E. apply (f_equal (fun x => List.length (cout x))) in E.
  cbn in E. rewrite length_app in E. cbn in E. lia.
Qed.

(** C9.  The comparison with the threshold is strict.  A handler object
    constructed with threshold [T] writes the alert exactly when the value is
    greater than [T] and leaves the world as it is exactly when the value is
    at most [T], so that the value [T] itself raises no alert; [IntHandler1]
    does the same with [T = 50]. *)
Theorem alert_comparison_is_strict :
  forall (T n : Z) (w : World),
    (snd (NewValueHandler_call (NewValueHandler_ctor T) n w) = print alert_line w
       <-> n > T) /\
    (snd (NewValueHandler_call (NewValueHandler_ctor T) n w) = w <-> n <= T) /\
    snd (NewValueHandler_call (NewValueHandler_ctor T) T w) = w /\
    (IntHandler1 n w = print alert_line w <-> n > 50) /\
    (IntHandler1 n w = w <-> n <= 50) /\
    IntHandler1 50 w = w.
Proof.
  intros T n w.
  pose proof (print_changes_cout alert_line w) as Hneq.
  unfold NewValueHandler_call, NewValueHandler_ctor, IntHandler1.
  cbn [alert_threshold_]. rewrite !Z.gtb_ltb, Z.ltb_irrefl.
  destruct (Z.ltb_spec T n), (Z.ltb_spec 50 n); cbn [snd];
    repeat split; intros; try reflexivity; try lia; try congruence.
Qed.

(** C7.  No sequence of calls of the call operator changes the threshold
    that the constructor stored: after any calls the member still holds the
    constructor's argument, the next call compares its argument with that
    value, and the loop of [FunctorDemo] ends with the object it started
    with. *)
Theorem alert_threshold_is_immutable :
  forall (t : Z) (values : list Z) (w : World),
    alert_threshold_ (fst (NewValueHandler_calls (NewValueHandler_ctor t) values w)) = t /\
    (forall value w',
       snd (NewValueHandler_call
              (fst (NewValueHandler_calls (NewValueHandler_ctor t) values w)) value w') =
       if value >? t then print alert_line w' else w') /\
    (forall fuel self' w',
       FunctorDemo_loop fuel (NewValueHandler_ctor t) w = Some (self', w') ->
       alert_threshold_ self' = t).
Proof.
  intros t values w.
  assert (forall self vs w0, fst (NewValueHandler_calls self vs w0) = self) as Hsame.
  { intros self vs. induction vs as [|v vs IH]; intros w0; [reflexivity|].
    cbn [NewValueHandler_calls]. unfold NewValueHandler_call.
    destruct (v >? alert_threshold_ self); apply IH. }
  rewrite Hsame. repeat split.
  - intros value w'. unfold NewValueHandler_call. cbn [alert_threshold_ NewValueHandler_ctor].
    destruct (value >? t); reflexivity.
  - intros fuel. generalize w. induction fuel as [|fuel IH]; intros w0 self' w' Hrun;
      [discriminate|].
    cbn [FunctorDemo_loop] in Hrun. destruct (FetchValue w0) as [n w1].
    unfold NewValueHandler_call in Hrun.
    destruct (n >? alert_threshold_ (NewValueHandler_ctor t)), (n =? 0);
      try (injection Hrun as <- _; reflexivity); eapply IH; eassumption.
Qed.

(** ** Equivalence of the loop variants *)

(** C5.  On every world and with every fuel, the hardcoded loop, the loop of
    [FunctorDemo] (a handler object with threshold 50) and [RunEventLoop]
    applied to [IntHandler1] give the same result: the same values read, the
    same text written in the same order, hence the same alerts. *)
Theorem loop_variants_are_equivalent :
  forall (fuel : nat) (w : World),
    HardcodedHandlerDemo fuel w = RunEventLoop fuel IntHandler1 w /\
    FunctorDemo fuel w = RunEventLoop fuel IntHandler1 w /\
    HardcodedHandlerDemo fuel w = FunctorDemo fuel w /\
    option_map alerts (HardcodedHandlerDemo fuel w) =
      option_map alerts (FunctorDemo fuel w).
Proof.
  intros fuel w.
  rewrite HardcodedHandlerDemo_as_RunEventLoop, FunctorDemo_as_RunEventLoop.
  repeat split.
Qed.

(** ** The threshold-50 handler on two short inputs *)

Lemma upcoming_two (w : World) (a b : Z) :
  upcoming w 2 = [a; b] ->
  cin w (cin_pos w) = a /\ cin w (S (cin_pos w)) = b.
Proof.
  unfold upcoming. cbn [seq map]. rewrite Nat.add_0_r, Nat.add_1_r.
  intros E. injection E as E1 E2. now split.
Qed.

(** The loop over two values, the second of which is the 0. *)
Lemma RunEventLoop_two_values (h : NewValueHandlerFnPtr) (a : Z) (w : World) (fuel : nat) :
  keeps_cin h ->
  a <> 0 ->
  upcoming w 2 = [a; 0] ->
  (2 <= fuel)%nat ->
  RunEventLoop fuel h w = Some (dispatch h (dispatch h w a) 0).
Proof.
  intros Hh Ha Hup Hfuel.
  destruct (upcoming_two w a 0 Hup) as [E1 E2].
  destruct fuel as [|[|fuel]]; try lia.
  rewrite RunEventLoop_turn, E1. apply Z.eqb_neq in Ha. rewrite Ha.
  rewrite RunEventLoop_turn, (dispatch_cin h Hh), (dispatch_cin_pos h Hh), E2.
  reflexivity.
Qed.

(** C3.  When the source delivers 61 and then 0, the threshold-50 handler
    driven by the loop ([IntHandler1] under [RunEventLoop], the handler
    object constructed with 50 under the loop of [FunctorDemo]) writes the
    alert exactly once: the output grows by the prompt, the alert and the
    prompt, the alert being written by the invocation on 61, while the
    invocation on 0 writes nothing.  When the source delivers 10 and then 0
    the output grows by the two prompts only and no alert is written. *)
Theorem threshold_50_handler_on_61_0_and_10_0 :
  forall (fuel : nat) (w : World),
    (2 <= fuel)%nat ->
    (upcoming w 2 = [61; 0] ->
       exists w',
         RunEventLoop fuel IntHandler1 w = Some w' /\
         FunctorDemo fuel w = Some w' /\
         cout w' = cout w ++ [prompt; alert_line; prompt] /\
         alerts w' = S (alerts w) /\
         cin_pos w' = (cin_pos w + 2)%nat) /\
    (upcoming w 2 = [10; 0] ->
       exists w',
         RunEventLoop fuel IntHandler1 w = Some w' /\
         FunctorDemo fuel w = Some w' /\
         cout w' = cout w ++ [prompt; prompt] /\
         alerts w' = alerts w /\
         cin_pos w' = (cin_pos w + 2)%nat) /\
    (forall w0, IntHandler1 61 w0 = print alert_line w0 /\
                IntHandler1 10 w0 = w0 /\
                IntHandler1 0 w0 = w0 /\
                snd (NewValueHandler_call (NewValueHandler_ctor 50) 61 w0) =
                  print alert_line w0 /\
                snd (NewValueHandler_call (NewValueHandler_ctor 50) 10 w0) = w0 /\
                snd (NewValueHandler_call (NewValueHandler_ctor 50) 0 w0) = w0).
Proof.
  intros fuel w Hfuel. repeat split.
  - intros Hup. eexists. rewrite FunctorDemo_as_RunEventLoop.
    rewrite (RunEventLoop_two_values IntHandler1 61 w fuel IntHandler1_keeps_cin
               ltac:(discriminate) Hup Hfuel).
    repeat split.
    + cbn. now rewrite <- !app_assoc.
    + unfold dispatch, IntHandler1. cbn [FetchValue snd Z.gtb Z.compare Pos.compare Pos.compare_cont].
      unfold alerts. cbn [print cout]. rewrite !count_occ_app. cbn. lia.
    + cbn. lia.
  - intros Hup. eexists. rewrite FunctorDemo_as_RunEventLoop.
    rewrite (RunEventLoop_two_values IntHandler1 10 w fuel IntHandler1_keeps_cin
               ltac:(discriminate) Hup Hfuel).
    repeat split.
    + cbn. now rewrite <- !app_assoc.
    + unfold dispatch, IntHandler1. cbn [FetchValue snd Z.gtb Z.compare Pos.compare Pos.compare_cont].
      unfold alerts. cbn [print cout]. rewrite !count_occ_app. cbn. lia.
    + cbn. lia.
Qed.

Lemma threshold_50_handler_on_61_0_and_10_0_witness :
  (2 <= 2)%nat /\
  (exists w',
     RunEventLoop 2 IntHandler1 (console (stream_of_list [61; 0]) (fun _ => 0)) = Some w' /\
     FunctorDemo 2 (console (stream_of_list [61; 0]) (fun _ => 0)) = Some w' /\
     cout w' = [prompt; alert_line; prompt] /\
     alerts w' = 1%nat /\
     cin_pos w' = 2%nat) /\
  (exists w',
     RunEventLoop 2 IntHandler1 (console (stream_of_list [10; 0]) (fun _ => 0)) = Some w' /\
     FunctorDemo 2 (console (stream_of_list [10; 0]) (fun _ => 0)) = Some w' /\
     cout w' = [prompt; prompt] /\
     alerts w' = 0%nat /\
     cin_pos w' = 2%nat).
Proof.
  split; [lia | split].
  - exact (proj1 (threshold_50_handler_on_61_0_and_10_0 2
                    (console (stream_of_list [61; 0]) (fun _ => 0)) (le_n 2))
             eq_refl).
  - exact (proj1 (proj2 (threshold_50_handler_on_61_0_and_10_0 2
                           (console (stream_of_list [10; 0]) (fun _ => 0)) (le_n 2)))
             eq_refl).
Defined.

(** ** Sorting with a predicate *)

Section InsertionSort.

Variable comp : Z -> Z -> bool.
Variable R : Z -> Z -> Prop.
Hypothesis comp_true : forall a b, comp a b = true -> R a b.
Hypothesis comp_false : forall a b, comp a b = false -> R b a.

Lemma insert_sorted_perm (x : Z) (l : list Z) :
  Permutation (x :: l) (insert_sorted comp x l).
Proof.
  induction l as [|y l IH]; cbn [insert_sorted]; [reflexivity|].
  destruct (comp x y); [reflexivity|].
  rewrite perm_swap. now apply perm_skip.
Qed.

Lemma std_sort_perm (l : list Z) : Permutation l (std_sort comp l).
Proof.
  induction l as [|x l IH]; [reflexivity|].
  change (std_sort comp (x :: l)) with (insert_sorted comp x (std_sort comp l)).
  rewrite <- insert_sorted_perm. now apply perm_skip.
Qed.

Lemma insert_sorted_HdRel (a x : Z) (l : list Z) :
  R a x -> HdRel R a l -> HdRel R a (insert_sorted comp x l).
Proof.
  intros Hax Hl. destruct l as [|y l]; cbn [insert_sorted].
  - now constructor.
  - inversion Hl; subst. destruct (comp x y); now constructor.
Qed.

Lemma insert_sorted_Sorted (x : Z) (l : list Z) :
  Sorted R l -> Sorted R (insert_sorted comp x l).
Proof.
  induction 1 as [|y l Hs IH Hhd]; cbn [insert_sorted].
  - repeat constructor.
  - destruct (comp x y) eqn:E.
    + constructor; [now constructor | constructor; now apply comp_true].
    + constructor; [exact IH |].
      apply insert_sorted_HdRel; [now apply comp_false | exact Hhd].
Qed.

Lemma std_sort_Sorted (l : list Z) : Sorted R (std_sort comp l).
Proof.
  induction l as [|x l IH]; [constructor|].
  change (std_sort comp (x :: l)) with (insert_sorted comp x (std_sort comp l)).
  now apply insert_sorted_Sorted.
Qed.

End InsertionSort.

(** Two sorted rearrangements of the same values are the same list. *)
Lemma sorted_perm_unique (R : Z -> Z -> Prop) :
  (forall a b c, R a b -> R b c -> R a c) ->
  (forall a b, R a b -> R b a -> a = b) ->
  forall l1 l2, Sorted R l1 -> Sorted R l2 -> Permutation l1 l2 -> l1 = l2.
Proof.
  intros Rtrans Rantisym l1 l2 H1 H2.
  apply Sorted_StronglySorted in H1; [|exact Rtrans].
  apply Sorted_StronglySorted in H2; [|exact Rtrans].
  revert l2 H2. induction H1 as [|a l1 Hs1 IH Hall1]; intros l2 H2 Hperm.
  - now apply Permutation_nil in Hperm.
  - destruct H2 as [|b l2 Hs2 Hall2].
    + apply Permutation_sym, Permutation_nil in Hperm. discriminate.
    + assert (a = b) as ->.
      { assert (In a (b :: l2)) as Ha
          by (eapply Permutation_in; [exact Hperm | now left]).
        assert (In b (a :: l1)) as Hb
          by (eapply Permutation_in; [exact (Permutation_sym Hperm) | now left]).
        rewrite Forall_forall in Hall1, Hall2.
        destruct Ha as [Ha|Ha]; [congruence|].
        destruct Hb as [Hb|Hb]; [congruence|].
        apply Rantisym; [now apply Hall1 | now apply Hall2]. }
      f_equal. apply IH; [exact Hs2 |].
      now apply Permutation_cons_inv in Hperm.
Qed.

Lemma less_sorts_ascending (l : list Z) : Sorted Z.le (std_sort less l).
Proof.
  apply std_sort_Sorted; unfold less; intros a b E.
  - apply Z.ltb_lt in E. lia.
  - apply Z.ltb_ge in E. lia.
Qed.

Lemma greater_sorts_descending (l : list Z) : Sorted Z.ge (std_sort Comparer_call l).
Proof.
  apply std_sort_Sorted; unfold Comparer_call; intros a b E; rewrite Z.gtb_ltb in E.
  - apply Z.ltb_lt in E. lia.
  - apply Z.ltb_ge in E. lia.
Qed.

(** The result of [std::sort] does not depend on the algorithm. *)
Lemma std_sort_unique (l l' : list Z) :
  Permutation l l' ->
  (Sorted Z.le l' -> l' = std_sort less l) /\
  (Sorted Z.ge l' -> l' = std_sort Comparer_call l).
Proof.
  intros Hperm. split; intros Hs.
  - apply (sorted_perm_unique Z.le); try assumption; try (intros; lia).
    + apply less_sorts_ascending.
    + rewrite <- Hperm. apply std_sort_perm.
  - apply (sorted_perm_unique Z.ge); try assumption; try (intros; lia).
    + apply greater_sorts_descending.
    + rewrite <- Hperm. apply std_sort_perm.
Qed.

Lemma Sorted_weaken (R R' : Z -> Z -> Prop) (l : list Z) :
  (forall a b, R a b -> R' a b) -> Sorted R l -> Sorted R' l.
Proof.
  intros Himp. induction 1 as [|a l Hs IH Hhd]; constructor; [exact IH |].
  destruct Hhd; constructor. now apply Himp.
Qed.

Lemma less_is_strict_weak : strict_weak_ordering less.
Proof.
  unfold less. repeat split; intros; rewrite ?Z.ltb_lt, ?Z.ltb_ge in *; lia.
Qed.

Lemma Comparer_is_strict_weak : strict_weak_ordering Comparer_call.
Proof.
  unfold Comparer_call. repeat split; intros;
    rewrite ?Z.gtb_ltb in *; rewrite ?Z.ltb_lt, ?Z.ltb_ge in *; lia.
Qed.

Lemma sorted_by_less (l : list Z) : sorted_by less l -> Sorted Z.le l.
Proof.
  apply Sorted_weaken. intros a b E. unfold less in E. apply Z.ltb_ge in E. lia.
Qed.

Lemma sorted_by_Comparer (l : list Z) : sorted_by Comparer_call l -> Sorted Z.ge l.
Proof.
  apply Sorted_weaken. intros a b E. unfold Comparer_call in E.
  rewrite Z.gtb_ltb in E. apply Z.ltb_ge in E. lia.
Qed.

(** Insertion sort meets the contract of [std::sort]. *)
Lemma std_sort_meets_contract : meets_sort_contract std_sort.
Proof.
  intros comp l (Hirr & Htrans & _). split; [apply std_sort_perm |].
  apply std_sort_Sorted.
  - intros a b Hab. destruct (comp b a) eqn:Hba; [|reflexivity].
    rewrite <- (Hirr a). symmetry. eapply Htrans; eassumption.
  - intros a b Hab. exact Hab.
Qed.

(** C4.  For every sequence [l] of integers, sorting with the natural order
    gives a non-decreasing sequence; sorting that result with the greater-than
    predicate (the [Comparer] object or the lambda) gives a non-increasing
    sequence that is a rearrangement of [l].  On [3,2,6,9,1,5] the first sort
    gives [1,2,3,5,6,9] and the second [9,6,5,3,2,1], so that the assertions
    of [PredicateDemo] and [LambdaAsPredicateDemo] hold and both run to their
    end.  The predicate of the second sort is greater-than: [Comparer] and
    the lambda answer true exactly when their first argument is the greater,
    and with it every sequence, sorted or not, comes out non-increasing (so
    does [3,2,6,9,1,5] itself).  None of this hangs on the algorithm: every
    sort that meets the contract of [std::sort] returns, for both sorts, the
    lists stated here. *)
Theorem sort_ascending_then_descending :
  forall (l : list Z),
    Sorted Z.le (std_sort less l) /\
    Permutation l (std_sort less l) /\
    Sorted Z.ge (std_sort Comparer_call (std_sort less l)) /\
    Permutation l (std_sort Comparer_call (std_sort less l)) /\
    std_sort (fun a b => a >? b) (std_sort less l) =
      std_sort Comparer_call (std_sort less l) /\
    std_sort less [3; 2; 6; 9; 1; 5] = [1; 2; 3; 5; 6; 9] /\
    std_sort Comparer_call [1; 2; 3; 5; 6; 9] = [9; 6; 5; 3; 2; 1] /\
    PredicateDemo = Done [9; 6; 5; 3; 2; 1] /\
    LambdaAsPredicateDemo = Done [9; 6; 5; 3; 2; 1] /\
    (forall a b, (Comparer_call a b = true <-> a > b) /\
                 ((fun x y => x >? y) a b = true <-> a > b) /\
                 (less a b = true <-> a < b)) /\
    Sorted Z.ge (std_sort Comparer_call l) /\
    Permutation l (std_sort Comparer_call l) /\
    std_sort Comparer_call [3; 2; 6; 9; 1; 5] = [9; 6; 5; 3; 2; 1] /\
    (forall sort : (Z -> Z -> bool) -> list Z -> list Z,
       meets_sort_contract sort ->
       sort less l = std_sort less l /\
       sort Comparer_call l = std_sort Comparer_call l /\
       sort Comparer_call (sort less l) =
         std_sort Comparer_call (std_sort less l) /\
       sort (fun a b => a >? b) (sort less l) =
         std_sort Comparer_call (std_sort less l)).
Proof.
  intros l.
  assert (forall sort, meets_sort_contract sort ->
            forall v, sort less v = std_sort less v /\
                      sort Comparer_call v = std_sort Comparer_call v) as Hany.
  { intros sort Hsort v.
    destruct (Hsort less v less_is_strict_weak) as [Hp1 Hs1].
    destruct (Hsort Comparer_call v Comparer_is_strict_weak) as [Hp2 Hs2].
    split.
    - apply (proj1 (std_sort_unique v _ Hp1)). now apply sorted_by_less.
    - apply (proj2 (std_sort_unique v _ Hp2)). now apply sorted_by_Comparer. }
  split; [apply less_sorts_ascending |].
  split; [apply std_sort_perm |].
  split; [apply greater_sorts_descending |].
  split; [rewrite <- std_sort_perm; apply std_sort_perm |].
  do 5 (split; [reflexivity |]).
  split.
  { intros a b. unfold Comparer_call, less. rewrite Z.gtb_ltb, Z.ltb_lt, Z.ltb_lt.
    repeat split; lia. }
  split; [apply greater_sorts_descending |].
  split; [apply std_sort_perm |].
  split; [reflexivity |].
  intros sort Hsort.
  destruct (Hany sort Hsort l) as [E1 E2].
  split; [exact E1 | split; [exact E2 |]].
  rewrite E1.
  change (sort (fun a b => a >? b)) with (sort Comparer_call).
  split; apply (proj2 (Hany sort Hsort (std_sort less l))).
Qed.

Lemma sort_ascending_then_descending_witness :
  meets_sort_contract std_sort /\
  std_sort Comparer_call (std_sort less [3; 2; 6; 9; 1; 5]) = [9; 6; 5; 3; 2; 1].
Proof.
  split; [exact std_sort_meets_contract |].
  destruct (sort_ascending_then_descending [3; 2; 6; 9; 1; 5])
    as (_ & _ & _ & _ & _ & _ & _ & _ & _ & _ & _ & _ & _ & Hany).
  destruct (Hany std_sort std_sort_meets_contract) as (_ & _ & E & _).
  exact E.
Defined.

(** ** Captures *)

(** C6.  What a lambda assigns to variables captured by reference is seen by
    the caller once the lambda has returned.  In [LambdaDemo], whatever the
    frame held on entry: before the lambda that captures everything by
    reference is called [i] is 1 and [j] is 2; right after its call [i] is 11
    and [j] is 22, and so they are when [LambdaDemo] ends.  The lambda that
    captures [i] alone by reference leaves the 1 it assigns in [i]. *)
Theorem reference_captures_are_seen_by_the_caller :
  forall (l0 : Locals) (w : World),
    i (fst (LambdaDemo_after 10 l0 w)) = 1 /\
    i (fst (LambdaDemo_after 11 l0 w)) = 1 /\
    j (fst (LambdaDemo_after 11 l0 w)) = 2 /\
    i (fst (LambdaDemo_after 12 l0 w)) = 11 /\
    j (fst (LambdaDemo_after 12 l0 w)) = 22 /\
    i (fst (LambdaDemo l0 w)) = 11 /\
    j (fst (LambdaDemo l0 w)) = 22 /\
    LambdaDemo l0 w = LambdaDemo_after (List.length LambdaDemo_body) l0 w.
Proof. intros l0 w. repeat split. Qed.

(** C10.  Variables captured by value are not modified in the caller.  Any
    call of a by-value lambda returns the frame it was given.  In
    [LambdaDemo] the two calls that capture [threshold] and [i] by value
    (statements 7 and 9) leave the frame as it was before each, so that after
    them [threshold] is still 50 and [i] still 1; [threshold] is 50 at the
    end as well.  The lambda that captures [i] by reference (statement 10)
    assigns to [i] the 1 it already holds, and the changes of [i] and [j] to
    11 and 22 come with the lambda that captures everything by reference
    (statement 12). *)
Theorem value_captures_leave_the_caller_unchanged :
  forall (l0 : Locals) (w : World),
    (forall (C A : Type) (capture : Locals -> C) (body : C -> A -> World -> World)
            (arg : A) (st : Locals * World),
        fst (call_by_value capture body arg st) = fst st) /\
    threshold (fst (LambdaDemo_after 6 l0 w)) = 50 /\
    fst (LambdaDemo_after 7 l0 w) = fst (LambdaDemo_after 6 l0 w) /\
    i (fst (LambdaDemo_after 8 l0 w)) = 1 /\
    fst (LambdaDemo_after 9 l0 w) = fst (LambdaDemo_after 8 l0 w) /\
    threshold (fst (LambdaDemo_after 9 l0 w)) = 50 /\
    i (fst (LambdaDemo_after 9 l0 w)) = 1 /\
    threshold (fst (LambdaDemo l0 w)) = 50 /\
    fst (LambdaDemo_after 10 l0 w) = fst (LambdaDemo_after 9 l0 w) /\
    fst (LambdaDemo_after 11 l0 w) = set_j 2 (fst (LambdaDemo_after 9 l0 w)) /\
    fst (LambdaDemo_after 12 l0 w) =
      set_j 22 (set_i 11 (fst (LambdaDemo_after 9 l0 w))).
Proof. intros l0 w. repeat split. Qed.

(** ** The entry point *)

Lemma RunEventLoop_ends (h : NewValueHandlerFnPtr) :
  keeps_cin h -> ends (fun fuel => RunEventLoop fuel h).
Proof.
  intros Hh w Hz.
  destruct (Hz (cin_pos w)) as (m & Hm & Hzero).
  destruct (first_zero (fun k => cin w (cin_pos w + k)%nat) (m - cin_pos w))
    as (k0 & _ & Hz0 & Hnz0).
  { cbn beta. now replace (cin_pos w + (m - cin_pos w))%nat with m by lia. }
  exists (S k0), (fold_left (dispatch h) (upcoming w (S k0)) w). split.
  - intros k. rewrite (proj1 (fold_dispatch_cin h Hh _ _)). apply Hz.
  - intros fuel' Hfuel. apply RunEventLoop_first_zero; try assumption; lia.
Qed.

Lemma ends_ext (demo demo' : nat -> World -> option World) :
  (forall fuel w, demo' fuel w = demo fuel w) -> ends demo -> ends demo'.
Proof.
  intros Hext Hd w Hz. destruct (Hd w Hz) as (fuel & w' & Hz' & Hrun).
  exists fuel, w'. split; [exact Hz' |].
  intros fuel' Hfuel. rewrite Hext. now apply Hrun.
Qed.

Lemma HardcodedHandlerDemo_ends : ends HardcodedHandlerDemo.
Proof.
  apply (ends_ext (fun fuel => RunEventLoop fuel IntHandler1)).
  - intros fuel w. apply HardcodedHandlerDemo_as_RunEventLoop.
  - apply RunEventLoop_ends, IntHandler1_keeps_cin.
Qed.

Lemma FunctorDemo_ends : ends FunctorDemo.
Proof.
  apply (ends_ext (fun fuel => RunEventLoop fuel IntHandler1)).
  - intros fuel w. apply FunctorDemo_as_RunEventLoop.
  - apply RunEventLoop_ends, IntHandler1_keeps_cin.
Qed.

Lemma EventHandlerPassedAsAnArgumentDemo_ends : ends EventHandlerPassedAsAnArgumentDemo.
Proof.
  intros w Hz. unfold EventHandlerPassedAsAnArgumentDemo.
  cbn [GenerateRandomNumber].
  destruct (truthy (Z.rem (rnd w (rnd_pos w)) 2)).
  - apply (RunEventLoop_ends IntHandler1 IntHandler1_keeps_cin). exact Hz.
  - apply (RunEventLoop_ends IntHandler2 IntHandler2_keeps_cin). exact Hz.
Qed.

Lemma HandlerSetInRuntimeDemo_ends : ends HandlerSetInRuntimeDemo.
Proof.
  apply (ends_ext EventHandlerPassedAsAnArgumentDemo).
  - intros fuel w. unfold HandlerSetInRuntimeDemo, EventHandlerPassedAsAnArgumentDemo.
    destruct (GenerateRandomNumber w) as [r w1].
    apply HandlerSetInRuntime_loop_as_RunEventLoop.
  - apply EventHandlerPassedAsAnArgumentDemo_ends.
Qed.

Lemma EventHandlerIsLambdaDemo_ends : ends EventHandlerIsLambdaDemo.
Proof.
  apply RunEventLoop_ends. intros v w. split; reflexivity.
Qed.

(** C8.  [main] runs the demonstration routines one after the other, each in
    the world the one before left, and returns 0.  Whenever [main] returns,
    its exit code is 0, each of the five loops has ended, and the world is
    the one [LambdaDemo] leaves after them; no assertion fails, whatever the
    input; and on a source that has a 0 ahead of every position [main] does
    return, with every fuel from some fuel on.  [main] has no parameters and
    its world is the console and the random numbers only. *)
Theorem main_runs_the_demos_and_returns_0 :
  forall (l0 : Locals) (w : World),
    (forall fuel code w',
       main fuel l0 w = Done (code, w') ->
       code = 0 /\
       exists w1 w2 w3 w4 w5,
         HardcodedHandlerDemo fuel w = Some w1 /\
         HandlerSetInRuntimeDemo fuel w1 = Some w2 /\
         FunctorDemo fuel w2 = Some w3 /\
         EventHandlerPassedAsAnArgumentDemo fuel w3 = Some w4 /\
         EventHandlerIsLambdaDemo fuel w4 = Some w5 /\
         w' = snd (LambdaDemo l0 w5)) /\
    (forall fuel, main fuel l0 w <> AssertionFailed) /\
    (zeros_ahead w ->
     exists fuel w',
       forall fuel', (fuel <= fuel')%nat -> main fuel' l0 w = Done (0, w')).
Proof.
  intros l0 w.
  assert (forall fuel r, main fuel l0 w = r -> r <> Running ->
            exists w1 w2 w3 w4 w5,
              HardcodedHandlerDemo fuel w = Some w1 /\
              HandlerSetInRuntimeDemo fuel w1 = Some w2 /\
              FunctorDemo fuel w2 = Some w3 /\
              EventHandlerPassedAsAnArgumentDemo fuel w3 = Some w4 /\
              EventHandlerIsLambdaDemo fuel w4 = Some w5 /\
              r = Done (0, snd (LambdaDemo l0 w5))) as Hmain.
  { intros fuel r E Hr. unfold main in E.
    destruct (HardcodedHandlerDemo fuel w) as [w1|] eqn:E1;
      cbn [of_loop bind] in E; [|now subst r].
    destruct (HandlerSetInRuntimeDemo fuel w1) as [w2|] eqn:E2;
      cbn [of_loop bind] in E; [|now subst r].
    destruct (FunctorDemo fuel w2) as [w3|] eqn:E3;
      cbn [of_loop bind] in E; [|now subst r].
    destruct (EventHandlerPassedAsAnArgumentDemo fuel w3) as [w4|] eqn:E4;
      cbn [of_loop bind] in E; [|now subst r].
    destruct (EventHandlerIsLambdaDemo fuel w4) as [w5|] eqn:E5;
      cbn [of_loop bind] in E; [|now subst r].
    exists w1, w2, w3, w4, w5. repeat split; try assumption.
    symmetry. exact E. }
  split; [|split].
  - intros fuel code w' E.
    destruct (Hmain fuel _ E ltac:(discriminate)) as (w1 & w2 & w3 & w4 & w5 & Hrest).
    split.
    + destruct Hrest as (_ & _ & _ & _ & _ & E'). congruence.
    + exists w1, w2, w3, w4, w5.
      destruct Hrest as (? & ? & ? & ? & ? & E'). repeat split; try assumption.
      congruence.
  - intros fuel E.
    destruct (Hmain fuel _ E ltac:(discriminate)) as (? & ? & ? & ? & ? & Hrest).
    destruct Hrest as (_ & _ & _ & _ & _ & E'). discriminate.
  - intros Hz.
    destruct (HardcodedHandlerDemo_ends w Hz) as (f1 & w1 & Hz1 & H1).
    destruct (HandlerSetInRuntimeDemo_ends w1 Hz1) as (f2 & w2 & Hz2 & H2).
    destruct (FunctorDemo_ends w2 Hz2) as (f3 & w3 & Hz3 & H3).
    destruct (EventHandlerPassedAsAnArgumentDemo_ends w3 Hz3) as (f4 & w4 & Hz4 & H4).
    destruct (EventHandlerIsLambdaDemo_ends w4 Hz4) as (f5 & w5 & _ & H5).
    exists (f1 + f2 + f3 + f4 + f5)%nat, (snd (LambdaDemo l0 w5)).
    intros fuel' Hfuel. unfold main.
    rewrite H1 by lia. cbn [of_loop bind].
    rewrite H2 by lia. cbn [of_loop bind].
    rewrite H3 by lia. cbn [of_loop bind].
    rewrite H4 by lia. cbn [of_loop bind].
    rewrite H5 by lia. reflexivity.
Qed.

Lemma main_runs_the_demos_and_returns_0_witness :
  zeros_ahead (console (stream_of_list [61; 0; 7]) (fun _ => 1)) /\
  exists fuel w',
    forall fuel', (fuel <= fuel')%nat ->
      main fuel' (mkLocals EmptyString EmptyString 0 0 0)
        (console (stream_of_list [61; 0; 7]) (fun _ => 1)) = Done (0, w').
Proof.
  assert (zeros_ahead (console (stream_of_list [61; 0; 7]) (fun _ => 1))) as Hz.
  { intros k. exists (3 + k)%nat. split; [lia | destruct k; reflexivity]. }
  split; [exact Hz |].
  exact (proj2 (proj2 (main_runs_the_demos_and_returns_0
                         (mkLocals EmptyString EmptyString 0 0 0)
                         (console (stream_of_list [61; 0; 7]) (fun _ => 1)))) Hz).
Defined.

(** ** Instances on concrete inputs *)

Lemma alert_threshold_is_immutable_witness :
  FunctorDemo_loop 2 (NewValueHandler_ctor 50)
    (console (stream_of_list [61; 0]) (fun _ => 0)) =
    Some (NewValueHandler_ctor 50,
          mkWorld (stream_of_list [61; 0]) 2 (fun _ => 0) 0
                  [prompt; alert_line; prompt]) /\
  alert_threshold_ (NewValueHandler_ctor 50) = 50.
Proof.
  split; [reflexivity |].
  exact (proj2 (proj2 (alert_threshold_is_immutable 50 []
                         (console (stream_of_list [61; 0]) (fun _ => 0))))
           2%nat (NewValueHandler_ctor 50)
           (mkWorld (stream_of_list [61; 0]) 2 (fun _ => 0) 0
                    [prompt; alert_line; prompt])
           eq_refl).
Defined.

Lemma alert_comparison_is_strict_witness :
  51 > 50 /\
  IntHandler1 51 (console (stream_of_list []) (fun _ => 0)) =
    print alert_line (console (stream_of_list []) (fun _ => 0)).
Proof.
  assert (51 > 50) as Hgt by lia.
  split; [exact Hgt |].
  exact (proj2 (proj1 (proj2 (proj2 (proj2
           (alert_comparison_is_strict 50 51
              (console (stream_of_list []) (fun _ => 0))))))) Hgt).
Defined.

(** * Further properties *)

(** ** The loop and an arbitrary handler *)

(** X1.  The body of the [do ... while] runs before the test.  Whatever the
    handler does (it may read the source itself): when the next value is 0
    the loop makes one turn, invoking the handler once, on that 0; and
    whenever the loop ends, the last thing it did was to invoke the handler
    on a 0 it had just fetched. *)
Theorem RunEventLoop_last_call_is_on_zero :
  forall (h : NewValueHandlerFnPtr) (w : World),
    (cin w (cin_pos w) = 0 ->
       forall fuel, RunEventLoop (S fuel) h w = Some (h 0 (snd (FetchValue w)))) /\
    (forall fuel w',
       RunEventLoop fuel h w = Some w' ->
       exists w0, fst (FetchValue w0) = 0 /\ w' = h 0 (snd (FetchValue w0))).
Proof.
  intros h w. split.
  - intros Hz fuel. cbn [RunEventLoop FetchValue print cin cin_pos].
    rewrite Hz. reflexivity.
  - intros fuel. revert w. induction fuel as [|fuel IH]; intros w w' Hrun;
      [discriminate|].
    cbn [RunEventLoop] in Hrun.
    destruct (FetchValue w) as [n w1] eqn:Hfetch.
    destruct (n =? 0) eqn:Hn.
    + apply Z.eqb_eq in Hn. subst n. exists w. rewrite Hfetch. cbn [fst snd].
      split; [reflexivity | congruence].
    + eapply IH. exact Hrun.
Qed.

Lemma RunEventLoop_last_call_is_on_zero_witness :
  stream_of_list [0; 5] 0%nat = 0 /\
  RunEventLoop 1 IntHandler2 (console (stream_of_list [0; 5]) (fun _ => 0)) =
    Some (IntHandler2 0
            (snd (FetchValue (console (stream_of_list [0; 5]) (fun _ => 0))))).
Proof.
  split; [reflexivity |].
  exact (proj1 (RunEventLoop_last_call_is_on_zero IntHandler2
                  (console (stream_of_list [0; 5]) (fun _ => 0)))
           eq_refl 0%nat).
Defined.

Lemma upcoming_stream_of_list (l : list Z) (r : nat -> Z) (n : nat) :
  upcoming (console (stream_of_list l) r) (List.length l + n) = l ++ repeat 0 n.
Proof.
  apply (nth_ext _ _ 0 0).
  - now rewrite upcoming_length, length_app, repeat_length.
  - intros m Hm. rewrite upcoming_length in Hm. rewrite upcoming_nth by assumption.
    cbn [console cin cin_pos Nat.add]. unfold stream_of_list.
    destruct (Nat.lt_ge_cases m (List.length l)) as [Hlt|Hge].
    + rewrite app_nth1 by assumption. reflexivity.
    + rewrite app_nth2, nth_overflow by lia.
      symmetry. destruct (nth_in_or_default (m - List.length l) (repeat 0 n) 0) as [Hin|E];
        [now apply repeat_spec in Hin | exact E].
Qed.

(** X2.  An input that ends without a 0 still ends the loop: [FetchValue] returns
    the 0 it initialised [n] with.  On such an input [l] the loop invokes the
    handler once on each value of [l], in order, and once more on that 0, and
    ends with any fuel above the length of [l]. *)
Theorem RunEventLoop_at_end_of_input :
  forall (h : NewValueHandlerFnPtr) (l : list Z) (r : nat -> Z) (fuel : nat),
    keeps_cin h ->
    Forall (fun v => v <> 0) l ->
    (List.length l < fuel)%nat ->
    RunEventLoop fuel h (console (stream_of_list l) r) =
      Some (h 0 (snd (FetchValue
                        (fold_left (dispatch h) l (console (stream_of_list l) r))))).
Proof.
  intros h l r fuel Hh Hl Hfuel.
  pose proof (upcoming_stream_of_list l r 1) as Hup. cbn [repeat] in Hup.
  assert ((List.length l + 1)%nat = List.length (l ++ [0])) as Hlen
    by (rewrite length_app; reflexivity).
  rewrite Hlen in Hup.
  destruct (upcoming_sentinel _ l Hl Hup) as [Hnz Hz].
  rewrite (RunEventLoop_first_zero h Hh (List.length l) _ fuel Hnz Hz Hfuel).
  rewrite <- Hlen, Nat.add_1_r in Hup. rewrite Hup, fold_left_app. reflexivity.
Qed.

Lemma RunEventLoop_at_end_of_input_witness :
  keeps_cin IntHandler1 /\
  Forall (fun v => v <> 0) [61; 10] /\
  Nat.lt (List.length [61%Z; 10%Z]) 3 /\
  RunEventLoop 3 IntHandler1 (console (stream_of_list [61; 10]) (fun _ => 0)) =
    Some (IntHandler1 0
            (snd (FetchValue
                    (fold_left (dispatch IntHandler1) [61; 10]
                       (console (stream_of_list [61; 10]) (fun _ => 0)))))).
Proof.
  assert (Forall (fun v => v <> 0) [61; 10]) as Hl
    by (repeat constructor; discriminate).
  assert (Nat.lt (List.length [61%Z; 10%Z]) 3) as Hfuel by (cbn; lia).
  split; [exact IntHandler1_keeps_cin | split; [exact Hl | split; [exact Hfuel |]]].
  exact (RunEventLoop_at_end_of_input IntHandler1 [61; 10] (fun _ => 0) 3
           IntHandler1_keeps_cin Hl Hfuel).
Defined.

(** ** What the loops write *)

Lemma prints_nil (w : World) : prints [] w = w.
Proof. destruct w. unfold prints. cbn. now rewrite app_nil_r. Qed.

Lemma IntHandler1_writes : writes IntHandler1 (alert_if_above 50).
Proof.
  intros v w. unfold IntHandler1, alert_if_above.
  destruct (v >? 50); [reflexivity | now rewrite prints_nil].
Qed.

Lemma IntHandler2_writes : writes IntHandler2 (fun v => [new_value_line v]).
Proof. intros v w. reflexivity. Qed.

Lemma as_handler_writes (self : NewValueHandler) :
  writes (as_handler self) (alert_if_above (alert_threshold_ self)).
Proof.
  intros v w. unfold as_handler, NewValueHandler_call, alert_if_above.
  destruct (v >? alert_threshold_ self); [reflexivity | now rewrite prints_nil].
Qed.

Lemma writes_keeps_cin (h : NewValueHandlerFnPtr) (f : Z -> list string) :
  writes h f -> keeps_cin h.
Proof. intros Hw v w. rewrite Hw. split; reflexivity. Qed.

(** The world after the turns of the loop on the values [vs], for a handler
    that only writes. *)
Lemma fold_dispatch_writes (h : NewValueHandlerFnPtr) (f : Z -> list string) :
  writes h f ->
  forall vs w,
    fold_left (dispatch h) vs w =
      mkWorld (cin w) (cin_pos w + List.length vs) (rnd w) (rnd_pos w)
              (cout w ++ flat_map (fun v => prompt :: f v) vs).
Proof.
  intros Hw vs. induction vs as [|v vs IH]; intros w.
  - destruct w. cbn. now rewrite Nat.add_0_r, app_nil_r.
  - cbn [fold_left]. rewrite IH. unfold dispatch. rewrite Hw.
    cbn [FetchValue snd prints print cin cin_pos rnd rnd_pos cout flat_map List.length].
    f_equal; [lia |]. rewrite <- !app_assoc. reflexivity.
Qed.

Lemma RunEventLoop_writes (h : NewValueHandlerFnPtr) (f : Z -> list string)
  (vs : list Z) (w : World) (fuel : nat) :
  writes h f ->
  Forall (fun v => v <> 0) vs ->
  upcoming w (List.length (vs ++ [0])) = vs ++ [0] ->
  (List.length vs < fuel)%nat ->
  RunEventLoop fuel h w =
    Some (mkWorld (cin w) (cin_pos w + List.length (vs ++ [0])) (rnd w) (rnd_pos w)
                  (cout w ++ flat_map (fun v => prompt :: f v) (vs ++ [0]))).
Proof.
  intros Hw Hvs Hup Hfuel.
  destruct (upcoming_sentinel w vs Hvs Hup) as [Hnz Hz].
  rewrite (RunEventLoop_first_zero h (writes_keeps_cin h f Hw) (List.length vs)
             w fuel Hnz Hz Hfuel).
  assert (S (List.length vs) = List.length (vs ++ [0])) as Hlen
    by (rewrite length_app; cbn; lia).
  rewrite Hlen, Hup. f_equal. now apply fold_dispatch_writes.
Qed.

Lemma alerts_prints (out : list string) (w : World) :
  alerts (prints out w) = (alerts w + count_occ string_dec out alert_line)%nat.
Proof. unfold alerts. cbn [prints cout]. apply count_occ_app. Qed.

Lemma alerts_of_threshold_output (T : Z) (vs : list Z) :
  count_occ string_dec (flat_map (fun v => prompt :: alert_if_above T v) vs) alert_line
  = List.length (filter (fun v => v >? T) vs).
Proof.
  induction vs as [|v vs IH]; [reflexivity|].
  cbn [flat_map filter]. rewrite count_occ_app, IH.
  unfold alert_if_above. destruct (v >? T); reflexivity.
Qed.

Lemma alerts_of_echo_output (vs : list Z) :
  count_occ string_dec (flat_map (fun v => [prompt; new_value_line v]) vs) alert_line
  = 0%nat.
Proof.
  induction vs as [|v vs IH]; [reflexivity|].
  cbn [flat_map]. rewrite count_occ_app, IH.
  cbn [count_occ]. destruct (string_dec prompt alert_line); [discriminate|].
  destruct (string_dec (new_value_line v) alert_line) as [E|]; [|reflexivity].
  unfold new_value_line, alert_line in E. cbn in E. discriminate.
Qed.

Lemma FunctorDemo_loop_as_handler (fuel : nat) (self : NewValueHandler) :
  forall w, FunctorDemo_loop fuel self w =
            option_map (pair self) (RunEventLoop fuel (as_handler self) w).
Proof.
  induction fuel as [|fuel IH]; intros w; [reflexivity|].
  cbn [FunctorDemo_loop RunEventLoop]. destruct (FetchValue w) as [n w1].
  change (as_handler self n w1) with (snd (NewValueHandler_call self n w1)).
  unfold NewValueHandler_call.
  destruct (n >? alert_threshold_ self); cbn [snd];
    (destruct (n =? 0); [reflexivity | apply IH]).
Qed.

(** X3.  The loop of [FunctorDemo] over a handler object with any threshold is
    the loop of [RunEventLoop] over the object's call operator, and it hands
    the object back as it was. *)
Theorem FunctorDemo_loop_is_RunEventLoop_for_every_threshold :
  forall (T : Z) (fuel : nat) (w : World),
    FunctorDemo_loop fuel (NewValueHandler_ctor T) w =
      option_map (pair (NewValueHandler_ctor T))
        (RunEventLoop fuel (as_handler (NewValueHandler_ctor T)) w).
Proof. intros T fuel w. apply FunctorDemo_loop_as_handler. Qed.

(** X4.  A threshold handler driven over the values [vs] and the closing 0 writes,
    after the prompt of each value, one alert for each value above the
    threshold and nothing else: the number of alerts grows by the number of
    values above the threshold (the closing 0 counts when the threshold is
    negative).  With threshold 50 the hardcoded loop and [RunEventLoop] over
    [IntHandler1] end in the same world. *)
Theorem threshold_loop_alerts_once_per_value_above :
  forall (T : Z) (vs : list Z) (w : World) (fuel : nat),
    Forall (fun v => v <> 0) vs ->
    upcoming w (List.length (vs ++ [0])) = vs ++ [0] ->
    (List.length vs < fuel)%nat ->
    exists w',
      FunctorDemo_loop fuel (NewValueHandler_ctor T) w =
        Some (NewValueHandler_ctor T, w') /\
      cout w' =
        cout w ++ flat_map (fun v => prompt :: alert_if_above T v) (vs ++ [0]) /\
      alerts w' =
        (alerts w + List.length (filter (fun v => (v >? T)%Z) (vs ++ [0%Z])))%nat /\
      (T = 50 ->
         HardcodedHandlerDemo fuel w = Some w' /\
         RunEventLoop fuel IntHandler1 w = Some w' /\
         FunctorDemo fuel w = Some w').
Proof.
  intros T vs w fuel Hvs Hup Hfuel.
  eexists. rewrite FunctorDemo_loop_as_handler.
  rewrite (RunEventLoop_writes _ _ vs w fuel
             (as_handler_writes (NewValueHandler_ctor T)) Hvs Hup Hfuel).
  cbn [option_map alert_threshold_ NewValueHandler_ctor cout].
  split; [reflexivity | split; [reflexivity | split]].
  - unfold alerts. cbn [cout]. rewrite count_occ_app.
    now rewrite alerts_of_threshold_output.
  - intros ->.
    rewrite HardcodedHandlerDemo_as_RunEventLoop, FunctorDemo_as_RunEventLoop.
    rewrite (RunEventLoop_writes _ _ vs w fuel IntHandler1_writes Hvs Hup Hfuel).
    repeat split.
Qed.

Lemma threshold_loop_alerts_once_per_value_above_witness :
  Forall (fun v => v <> 0) [61; 10; 75] /\
  Nat.lt (List.length [61%Z; 10%Z; 75%Z]) 4 /\
  exists w',
    FunctorDemo_loop 4 (NewValueHandler_ctor 60)
      (console (stream_of_list [61; 10; 75; 0; 9]) (fun _ => 0)) =
      Some (NewValueHandler_ctor 60, w') /\
    alerts w' = 2%nat.
Proof.
  assert (Forall (fun v => v <> 0) [61; 10; 75]) as Hvs
    by (repeat constructor; discriminate).
  assert (Nat.lt (List.length [61%Z; 10%Z; 75%Z]) 4) as Hfuel by (cbn; lia).
  split; [exact Hvs | split; [exact Hfuel |]].
  destruct (threshold_loop_alerts_once_per_value_above 60 [61; 10; 75]
              (console (stream_of_list [61; 10; 75; 0; 9]) (fun _ => 0)) 4
              Hvs eq_refl Hfuel) as (w' & Hrun & _ & Halerts & _).
  exists w'. split; [exact Hrun | exact Halerts].
Defined.

(** X5.  The loop of [EventHandlerIsLambdaDemo] echoes every value it reads, the
    closing 0 included: after the prompt of each value comes its line
    [New value: v], in the order read, and never an alert.  Its lambda is
    [IntHandler2] under another binding. *)
Theorem EventHandlerIsLambdaDemo_echoes_every_value :
  forall (vs : list Z) (w : World) (fuel : nat),
    Forall (fun v => v <> 0) vs ->
    upcoming w (List.length (vs ++ [0])) = vs ++ [0] ->
    (List.length vs < fuel)%nat ->
    exists w',
      EventHandlerIsLambdaDemo fuel w = Some w' /\
      RunEventLoop fuel IntHandler2 w = Some w' /\
      cout w' =
        cout w ++ flat_map (fun v => [prompt; new_value_line v]) (vs ++ [0]) /\
      alerts w' = alerts w.
Proof.
  intros vs w fuel Hvs Hup Hfuel. eexists.
  change (EventHandlerIsLambdaDemo fuel w) with (RunEventLoop fuel IntHandler2 w).
  rewrite (RunEventLoop_writes _ _ vs w fuel IntHandler2_writes Hvs Hup Hfuel).
  split; [reflexivity | split; [reflexivity | split; [reflexivity |]]].
  unfold alerts. cbn [cout]. rewrite count_occ_app, alerts_of_echo_output. lia.
Qed.

Lemma EventHandlerIsLambdaDemo_echoes_every_value_witness :
  Forall (fun v => v <> 0) [61; -4] /\
  Nat.lt (List.length [61%Z; (-4)%Z]) 3 /\
  exists w',
    EventHandlerIsLambdaDemo 3
      (console (stream_of_list [61; -4; 0; 9]) (fun _ => 0)) = Some w' /\
    cout w' =
      [prompt; new_value_line 61; prompt; new_value_line (-4);
       prompt; new_value_line 0].
Proof.
  assert (Forall (fun v => v <> 0) [61; -4]) as Hvs
    by (repeat constructor; discriminate).
  assert (Nat.lt (List.length [61%Z; (-4)%Z]) 3) as Hfuel by (cbn; lia).
  split; [exact Hvs | split; [exact Hfuel |]].
  destruct (EventHandlerIsLambdaDemo_echoes_every_value [61; -4]
              (console (stream_of_list [61; -4; 0; 9]) (fun _ => 0)) 3
              Hvs eq_refl Hfuel) as (w' & Hrun & _ & Hout & _).
  exists w'. split; [exact Hrun | exact Hout].
Defined.

(** ** The handler chosen at run time *)

(** X6.  [HandlerSetInRuntimeDemo] and [EventHandlerPassedAsAnArgumentDemo] do the
    same on every world: they draw one random number and run the loop with
    [IntHandler1] when the number is odd and with [IntHandler2] when it is
    even. *)
Theorem runtime_handler_is_chosen_by_parity :
  forall (fuel : nat) (w : World),
    HandlerSetInRuntimeDemo fuel w = EventHandlerPassedAsAnArgumentDemo fuel w /\
    EventHandlerPassedAsAnArgumentDemo fuel w =
      RunEventLoop fuel
        (if Z.odd (rnd w (rnd_pos w)) then IntHandler1 else IntHandler2)
        (mkWorld (cin w) (cin_pos w) (rnd w) (S (rnd_pos w)) (cout w)).
Proof.
  intros fuel w. split.
  - unfold HandlerSetInRuntimeDemo, EventHandlerPassedAsAnArgumentDemo.
    destruct (GenerateRandomNumber w) as [r w1].
    apply HandlerSetInRuntime_loop_as_RunEventLoop.
  - unfold EventHandlerPassedAsAnArgumentDemo. cbn [GenerateRandomNumber].
    assert (truthy (Z.rem (rnd w (rnd_pos w)) 2) = Z.odd (rnd w (rnd_pos w))) as ->.
    { unfold truthy. rewrite Zrem_odd.
      destruct (rnd w (rnd_pos w)) as [|p|p]; [reflexivity | |];
        destruct p; reflexivity. }
    reflexivity.
Qed.

(** ** What the demos take from the source and leave outside it *)

Lemma upcoming_app (w w1 : World) (a b : nat) :
  cin w1 = cin w ->
  cin_pos w1 = (cin_pos w + a)%nat ->
  upcoming w (a + b) = upcoming w a ++ upcoming w1 b.
Proof.
  intros Hc Hp. induction b as [|b IH].
  - rewrite Nat.add_0_r. cbn. now rewrite app_nil_r.
  - rewrite Nat.add_succ_r, !upcoming_snoc, IH, Hc, Hp, <- app_assoc.
    now rewrite Nat.add_assoc.
Qed.

Lemma zeros_in_nonzero (w : World) (k : nat) :
  (forall m, (m < k)%nat -> cin w (cin_pos w + m)%nat <> 0) ->
  zeros_in w k = 0%nat.
Proof.
  intros Hnz. unfold zeros_in. apply count_occ_not_In.
  intros Hin. apply upcoming_nonzero in Hnz.
  rewrite Forall_forall in Hnz. now apply (Hnz 0).
Qed.

(** A run holds one zero, its last value. *)
Lemma one_run_zeros (w w' : World) :
  one_run w w' ->
  exists m, cin_pos w' = (cin_pos w + S m)%nat /\
            cin w (cin_pos w + m)%nat = 0 /\
            forall n, zeros_in w (S m + n) = S (zeros_in w' n).
Proof.
  intros (Hc & k & Hnz & Hz & Hp). exists k. repeat split; try assumption.
  intros n. unfold zeros_in.
  rewrite (upcoming_app w w' (S k) n Hc Hp), count_occ_app, upcoming_snoc, Hz.
  rewrite count_occ_app. fold (zeros_in w k). rewrite (zeros_in_nonzero w k Hnz).
  reflexivity.
Qed.

Lemma RunEventLoop_one_run (h : NewValueHandlerFnPtr) (fuel : nat) (w w' : World) :
  keeps_cin h -> RunEventLoop fuel h w = Some w' -> one_run w w'.
Proof.
  intros Hh Hrun.
  destruct (RunEventLoop_ended_read_zero h Hh fuel w w' Hrun) as (k & Hk & Hz & Hnz).
  rewrite (RunEventLoop_first_zero h Hh k w fuel Hnz Hz Hk) in Hrun.
  assert (w' = fold_left (dispatch h) (upcoming w (S k)) w) as -> by congruence.
  destruct (fold_dispatch_cin h Hh (upcoming w (S k)) w) as [Hc Hp].
  rewrite upcoming_length in Hp.
  split; [exact Hc | exists k; now repeat split].
Qed.

Lemma RunEventLoop_drew_and_wrote (h : NewValueHandlerFnPtr) (f : Z -> list string)
  (fuel : nat) (w w' : World) :
  writes h f -> RunEventLoop fuel h w = Some w' -> drew_and_wrote 0 w w'.
Proof.
  intros Hw Hrun. pose proof (writes_keeps_cin h f Hw) as Hh.
  destruct (RunEventLoop_ended_read_zero h Hh fuel w w' Hrun) as (k & Hk & Hz & Hnz).
  rewrite (RunEventLoop_first_zero h Hh k w fuel Hnz Hz Hk) in Hrun.
  assert (w' = fold_left (dispatch h) (upcoming w (S k)) w) as -> by congruence.
  rewrite (fold_dispatch_writes h f Hw). unfold drew_and_wrote.
  cbn [rnd rnd_pos cout].
  split; [reflexivity | split; [lia | eexists; reflexivity]].
Qed.

Lemma drew_and_wrote_trans (d1 d2 : nat) (w w1 w2 : World) :
  drew_and_wrote d1 w w1 -> drew_and_wrote d2 w1 w2 ->
  drew_and_wrote (d1 + d2) w w2.
Proof.
  intros (Hr1 & Hp1 & out1 & Ho1) (Hr2 & Hp2 & out2 & Ho2).
  split; [congruence | split; [lia |]].
  exists (out1 ++ out2). now rewrite Ho2, Ho1, app_assoc.
Qed.

(** What each loop demo does to the world when it ends: it has taken one run
    from the source, has drawn [d] random numbers and has added to the
    output. *)
Lemma HardcodedHandlerDemo_effect (fuel : nat) (w w' : World) :
  HardcodedHandlerDemo fuel w = Some w' -> one_run w w' /\ drew_and_wrote 0 w w'.
Proof.
  rewrite HardcodedHandlerDemo_as_RunEventLoop. intros Hrun. split.
  - eapply RunEventLoop_one_run; [apply IntHandler1_keeps_cin | exact Hrun].
  - eapply RunEventLoop_drew_and_wrote; [apply IntHandler1_writes | exact Hrun].
Qed.

Lemma FunctorDemo_effect (fuel : nat) (w w' : World) :
  FunctorDemo fuel w = Some w' -> one_run w w' /\ drew_and_wrote 0 w w'.
Proof.
  rewrite FunctorDemo_as_RunEventLoop, <- HardcodedHandlerDemo_as_RunEventLoop.
  apply HardcodedHandlerDemo_effect.
Qed.

Lemma EventHandlerIsLambdaDemo_effect (fuel : nat) (w w' : World) :
  EventHandlerIsLambdaDemo fuel w = Some w' -> one_run w w' /\ drew_and_wrote 0 w w'.
Proof.
  change (EventHandlerIsLambdaDemo fuel w) with (RunEventLoop fuel IntHandler2 w).
  intros Hrun. split.
  - eapply RunEventLoop_one_run; [apply IntHandler2_keeps_cin | exact Hrun].
  - eapply RunEventLoop_drew_and_wrote; [apply IntHandler2_writes | exact Hrun].
Qed.

Lemma EventHandlerPassedAsAnArgumentDemo_effect (fuel : nat) (w w' : World) :
  EventHandlerPassedAsAnArgumentDemo fuel w = Some w' ->
  one_run w w' /\ drew_and_wrote 1 w w'.
Proof.
  unfold EventHandlerPassedAsAnArgumentDemo. cbn [GenerateRandomNumber].
  set (w1 := mkWorld (cin w) (cin_pos w) (rnd w) (S (rnd_pos w)) (cout w)).
  assert (forall h f, writes h f -> RunEventLoop fuel h w1 = Some w' ->
                      one_run w w' /\ drew_and_wrote 1 w w') as Hboth.
  { intros h f Hw Hrun. split.
    - apply (RunEventLoop_one_run h fuel w1 w' (writes_keeps_cin h f Hw)) in Hrun.
      exact Hrun.
    - apply (RunEventLoop_drew_and_wrote h f fuel w1 w' Hw) in Hrun.
      destruct Hrun as (Hr & Hp & out & Ho). cbn [w1 rnd rnd_pos cout] in *.
      split; [exact Hr | split; [lia | now exists out]]. }
  destruct (truthy (Z.rem (rnd w (rnd_pos w)) 2)).
  - apply (Hboth _ _ IntHandler1_writes).
  - apply (Hboth _ _ IntHandler2_writes).
Qed.

Lemma HandlerSetInRuntimeDemo_effect (fuel : nat) (w w' : World) :
  HandlerSetInRuntimeDemo fuel w = Some w' ->
  one_run w w' /\ drew_and_wrote 1 w w'.
Proof.
  intros Hrun. apply (EventHandlerPassedAsAnArgumentDemo_effect fuel).
  rewrite <- Hrun. unfold HandlerSetInRuntimeDemo, EventHandlerPassedAsAnArgumentDemo.
  destruct (GenerateRandomNumber w) as [r w1]. symmetry.
  apply HandlerSetInRuntime_loop_as_RunEventLoop.
Qed.

Lemma LambdaDemo_effect (l0 : Locals) (w : World) :
  cin (snd (LambdaDemo l0 w)) = cin w /\
  cin_pos (snd (LambdaDemo l0 w)) = cin_pos w /\
  drew_and_wrote 0 w (snd (LambdaDemo l0 w)).
Proof.
  split; [reflexivity | split; [reflexivity |]].
  split; [reflexivity | split; [cbn; lia |]].
  exists [new_value_line 123; hello_line; (show_int 50 ++ endl)%string;
          (show_int 50 ++ ", " ++ show_int 1 ++ endl)%string; hello_line].
  cbn. now rewrite <- !app_assoc.
Qed.

Lemma main_done_inv (fuel : nat) (l0 : Locals) (w : World) (code : Z) (w' : World) :
  main fuel l0 w = Done (code, w') ->
  code = 0 /\
  exists w1 w2 w3 w4 w5,
    HardcodedHandlerDemo fuel w = Some w1 /\
    HandlerSetInRuntimeDemo fuel w1 = Some w2 /\
    FunctorDemo fuel w2 = Some w3 /\
    EventHandlerPassedAsAnArgumentDemo fuel w3 = Some w4 /\
    EventHandlerIsLambdaDemo fuel w4 = Some w5 /\
    w' = snd (LambdaDemo l0 w5).
Proof.
  intros E. unfold main in E.
  destruct (HardcodedHandlerDemo fuel w) as [w1|] eqn:E1;
    cbn [of_loop bind] in E; [|discriminate].
  destruct (HandlerSetInRuntimeDemo fuel w1) as [w2|] eqn:E2;
    cbn [of_loop bind] in E; [|discriminate].
  destruct (FunctorDemo fuel w2) as [w3|] eqn:E3;
    cbn [of_loop bind] in E; [|discriminate].
  destruct (EventHandlerPassedAsAnArgumentDemo fuel w3) as [w4|] eqn:E4;
    cbn [of_loop bind] in E; [|discriminate].
  destruct (EventHandlerIsLambdaDemo fuel w4) as [w5|] eqn:E5;
    cbn [of_loop bind] in E; [|discriminate].
  assert (Done (0, snd (LambdaDemo l0 w5)) = Done (code, w')) as E' by exact E.
  injection E' as <- <-.
  split; [reflexivity |]. exists w1, w2, w3, w4, w5. now repeat split.
Qed.

(** X7.  When [main] returns it has taken from the source exactly the values up
    to and including the fifth 0, one run for each of the five loops, and
    nothing behind it; it has called [rand] twice; and it has only added to
    the output. *)
Theorem main_reads_up_to_the_fifth_zero :
  forall (fuel : nat) (l0 : Locals) (w : World) (code : Z) (w' : World),
    main fuel l0 w = Done (code, w') ->
    cin w' = cin w /\
    (exists n, cin_pos w' = (cin_pos w + S n)%nat /\
               zeros_in w (S n) = 5%nat /\
               cin w (cin_pos w + n)%nat = 0) /\
    drew_and_wrote 2 w w'.
Proof.
  intros fuel l0 w code w' E.
  destruct (main_done_inv fuel l0 w code w' E)
    as (_ & w1 & w2 & w3 & w4 & w5 & E1 & E2 & E3 & E4 & E5 & ->).
  destruct (HardcodedHandlerDemo_effect _ _ _ E1) as [R1 D1].
  destruct (HandlerSetInRuntimeDemo_effect _ _ _ E2) as [R2 D2].
  destruct (FunctorDemo_effect _ _ _ E3) as [R3 D3].
  destruct (EventHandlerPassedAsAnArgumentDemo_effect _ _ _ E4) as [R4 D4].
  destruct (EventHandlerIsLambdaDemo_effect _ _ _ E5) as [R5 D5].
  destruct (LambdaDemo_effect l0 w5) as (Lc & Lp & D6).
  split; [|split].
  - destruct R1 as [C1 _], R2 as [C2 _], R3 as [C3 _], R4 as [C4 _], R5 as [C5 _].
    congruence.
  - destruct (one_run_zeros _ _ R1) as (n1 & P1 & _ & Z1).
    destruct (one_run_zeros _ _ R2) as (n2 & P2 & _ & Z2).
    destruct (one_run_zeros _ _ R3) as (n3 & P3 & _ & Z3).
    destruct (one_run_zeros _ _ R4) as (n4 & P4 & _ & Z4).
    destruct (one_run_zeros _ _ R5) as (n5 & P5 & Hlast & Z5).
    exists (S n1 + (S n2 + (S n3 + (S n4 + n5))))%nat. repeat split.
    + rewrite Lp. lia.
    + replace (S (S n1 + (S n2 + (S n3 + (S n4 + n5)))))
        with (S n1 + (S n2 + (S n3 + (S n4 + (S n5 + 0)))))%nat by lia.
      rewrite Z1, Z2, Z3, Z4, Z5. reflexivity.
    + destruct R1 as [C1 _], R2 as [C2 _], R3 as [C3 _], R4 as [C4 _].
      rewrite <- C1, <- C2, <- C3, <- C4.
      replace (cin_pos w + (S n1 + (S n2 + (S n3 + (S n4 + n5)))))%nat
        with (cin_pos w4 + n5)%nat by lia.
      exact Hlast.
  - apply (drew_and_wrote_trans 0 2 w w1 _ D1).
    apply (drew_and_wrote_trans 1 1 w1 w2 _ D2).
    apply (drew_and_wrote_trans 0 1 w2 w3 _ D3).
    apply (drew_and_wrote_trans 1 0 w3 w4 _ D4).
    apply (drew_and_wrote_trans 0 0 w4 w5 _ D5).
    exact D6.
Qed.

Lemma main_reads_up_to_the_fifth_zero_witness :
  main 2 (mkLocals EmptyString EmptyString 0 0 0)
       (console (stream_of_list [61; 0; 0; 7; 0; 0; 0; 9]) (fun _ => 1)) =
    Done (0, snd (LambdaDemo (mkLocals EmptyString EmptyString 0 0 0)
                    (mkWorld (stream_of_list [61; 0; 0; 7; 0; 0; 0; 9]) 7
                             (fun _ => 1) 2
                             [prompt; alert_line; prompt; prompt; prompt; prompt;
                              prompt; prompt; new_value_line 0]))) /\
  zeros_in (console (stream_of_list [61; 0; 0; 7; 0; 0; 0; 9]) (fun _ => 1)) 7
    = 5%nat.
Proof.
  assert (main 2 (mkLocals EmptyString EmptyString 0 0 0)
            (console (stream_of_list [61; 0; 0; 7; 0; 0; 0; 9]) (fun _ => 1)) =
          Done (0, snd (LambdaDemo (mkLocals EmptyString EmptyString 0 0 0)
                    (mkWorld (stream_of_list [61; 0; 0; 7; 0; 0; 0; 9]) 7
                             (fun _ => 1) 2
                             [prompt; alert_line; prompt; prompt; prompt; prompt;
                              prompt; prompt; new_value_line 0])))) as Hmain
    by (vm_compute; reflexivity).
  split; [exact Hmain |].
  destruct (main_reads_up_to_the_fifth_zero _ _ _ _ _ Hmain)
    as (_ & (n & Hp & Hz & _) & _).
  change (7 = S n)%nat in Hp. injection Hp as <-. exact Hz.
Defined.

(** ** When [main] returns *)

Lemma zero_among_upcoming (w : World) (n : nat) :
  (0 < zeros_in w n)%nat ->
  exists k, (k < n)%nat /\ cin w (cin_pos w + k)%nat = 0.
Proof.
  intros Hpos. apply (count_occ_In Z.eq_dec) in Hpos.
  unfold upcoming in Hpos. apply in_map_iff in Hpos as (k & Hk & Hin).
  apply in_seq in Hin. exists k. split; [lia | exact Hk].
Qed.

Lemma RunEventLoop_ends_on_a_zero (h : NewValueHandlerFnPtr) (w : World) (k : nat) :
  keeps_cin h ->
  cin w (cin_pos w + k)%nat = 0 ->
  exists fuel w', forall fuel', (fuel <= fuel')%nat -> RunEventLoop fuel' h w = Some w'.
Proof.
  intros Hh Hz.
  destruct (first_zero (fun m => cin w (cin_pos w + m)%nat) k Hz)
    as (k0 & _ & Hz0 & Hnz0).
  exists (S k0), (fold_left (dispatch h) (upcoming w (S k0)) w).
  intros fuel' Hfuel. apply RunEventLoop_first_zero; try assumption; lia.
Qed.

Section DemoStep.

Variable demo : nat -> World -> option World.
Hypothesis demo_run : forall fuel w w', demo fuel w = Some w' -> one_run w w'.
Hypothesis demo_ends :
  forall w k, cin w (cin_pos w + k)%nat = 0 ->
    exists fuel w', forall fuel', (fuel <= fuel')%nat -> demo fuel' w = Some w'.

(** A demo uses up one of the zeros ahead. *)
Lemma demo_uses_one_zero (w : World) (n c : nat) :
  (S c <= zeros_in w n)%nat ->
  exists fuel w' n',
    (forall fuel', (fuel <= fuel')%nat -> demo fuel' w = Some w') /\
    (c <= zeros_in w' n')%nat.
Proof.
  intros Hc.
  destruct (zero_among_upcoming w n ltac:(lia)) as (k & Hk & Hz).
  destruct (demo_ends w k Hz) as (fuel & w' & Hrun).
  destruct (demo_run fuel w w' (Hrun fuel (le_n _)))
    as (Hcin & k0 & Hnz0 & Hz0 & Hp0).
  assert (k0 <= k)%nat as Hle.
  { destruct (Nat.le_gt_cases k0 k) as [|Hgt]; [assumption|].
    exfalso. exact (Hnz0 k Hgt Hz). }
  exists fuel, w', (n - S k0)%nat. split; [exact Hrun |].
  assert (forall q, zeros_in w (S k0 + q) = S (zeros_in w' q)) as Hcount.
  { intros q. unfold zeros_in.
    rewrite (upcoming_app w w' (S k0) q Hcin Hp0), count_occ_app, upcoming_snoc, Hz0.
    rewrite count_occ_app. fold (zeros_in w k0).
    rewrite (zeros_in_nonzero w k0 Hnz0). reflexivity. }
  specialize (Hcount (n - S k0)%nat).
  replace (S k0 + (n - S k0))%nat with n in Hcount by lia. lia.
Qed.

End DemoStep.

Lemma HardcodedHandlerDemo_ends_on_a_zero (w : World) (k : nat) :
  cin w (cin_pos w + k)%nat = 0 ->
  exists fuel w',
    forall fuel', (fuel <= fuel')%nat -> HardcodedHandlerDemo fuel' w = Some w'.
Proof.
  intros Hz.
  destruct (RunEventLoop_ends_on_a_zero IntHandler1 w k IntHandler1_keeps_cin Hz)
    as (fuel & w' & Hrun).
  exists fuel, w'. intros fuel' Hfuel.
  rewrite HardcodedHandlerDemo_as_RunEventLoop. now apply Hrun.
Qed.

Lemma FunctorDemo_ends_on_a_zero (w : World) (k : nat) :
  cin w (cin_pos w + k)%nat = 0 ->
  exists fuel w', forall fuel', (fuel <= fuel')%nat -> FunctorDemo fuel' w = Some w'.
Proof.
  intros Hz.
  destruct (RunEventLoop_ends_on_a_zero IntHandler1 w k IntHandler1_keeps_cin Hz)
    as (fuel & w' & Hrun).
  exists fuel, w'. intros fuel' Hfuel.
  rewrite FunctorDemo_as_RunEventLoop. now apply Hrun.
Qed.

Lemma EventHandlerIsLambdaDemo_ends_on_a_zero (w : World) (k : nat) :
  cin w (cin_pos w + k)%nat = 0 ->
  exists fuel w',
    forall fuel', (fuel <= fuel')%nat -> EventHandlerIsLambdaDemo fuel' w = Some w'.
Proof.
  intros Hz.
  exact (RunEventLoop_ends_on_a_zero IntHandler2 w k IntHandler2_keeps_cin Hz).
Qed.

Lemma EventHandlerPassedAsAnArgumentDemo_ends_on_a_zero (w : World) (k : nat) :
  cin w (cin_pos w + k)%nat = 0 ->
  exists fuel w',
    forall fuel', (fuel <= fuel')%nat ->
      EventHandlerPassedAsAnArgumentDemo fuel' w = Some w'.
Proof.
  intros Hz. unfold EventHandlerPassedAsAnArgumentDemo. cbn [GenerateRandomNumber].
  destruct (truthy (Z.rem (rnd w (rnd_pos w)) 2)).
  - apply (RunEventLoop_ends_on_a_zero IntHandler1 _ k IntHandler1_keeps_cin). exact Hz.
  - apply (RunEventLoop_ends_on_a_zero IntHandler2 _ k IntHandler2_keeps_cin). exact Hz.
Qed.

Lemma HandlerSetInRuntimeDemo_ends_on_a_zero (w : World) (k : nat) :
  cin w (cin_pos w + k)%nat = 0 ->
  exists fuel w',
    forall fuel', (fuel <= fuel')%nat -> HandlerSetInRuntimeDemo fuel' w = Some w'.
Proof.
  intros Hz.
  destruct (EventHandlerPassedAsAnArgumentDemo_ends_on_a_zero w k Hz)
    as (fuel & w' & Hrun).
  exists fuel, w'. intros fuel' Hfuel. rewrite <- (Hrun fuel' Hfuel).
  unfold HandlerSetInRuntimeDemo, EventHandlerPassedAsAnArgumentDemo.
  destruct (GenerateRandomNumber w) as [r w1].
  apply HandlerSetInRuntime_loop_as_RunEventLoop.
Qed.

(** X8.  [main] returns, given enough fuel, exactly when the source has at least
    five zeros ahead: each of the five loops waits for a 0 of its own, and
    nothing else in [main] waits for anything. *)
Theorem main_returns_iff_five_zeros_ahead :
  forall (l0 : Locals) (w : World),
    (exists fuel code w', main fuel l0 w = Done (code, w')) <->
    (exists n, (5 <= zeros_in w n)%nat).
Proof.
  intros l0 w. split.
  - intros (fuel & code & w' & E).
    destruct (main_done_inv fuel l0 w code w' E)
      as (_ & w1 & w2 & w3 & w4 & w5 & E1 & E2 & E3 & E4 & E5 & _).
    destruct (one_run_zeros _ _ (proj1 (HardcodedHandlerDemo_effect _ _ _ E1)))
      as (n1 & _ & _ & Z1).
    destruct (one_run_zeros _ _ (proj1 (HandlerSetInRuntimeDemo_effect _ _ _ E2)))
      as (n2 & _ & _ & Z2).
    destruct (one_run_zeros _ _ (proj1 (FunctorDemo_effect _ _ _ E3)))
      as (n3 & _ & _ & Z3).
    destruct (one_run_zeros _ _ (proj1 (EventHandlerPassedAsAnArgumentDemo_effect _ _ _ E4)))
      as (n4 & _ & _ & Z4).
    destruct (one_run_zeros _ _ (proj1 (EventHandlerIsLambdaDemo_effect _ _ _ E5)))
      as (n5 & _ & _ & Z5).
    exists (S n1 + (S n2 + (S n3 + (S n4 + (S n5 + 0)))))%nat.
    rewrite Z1, Z2, Z3, Z4, Z5. lia.
  - intros (n & Hn).
    destruct (demo_uses_one_zero HardcodedHandlerDemo
                (fun fuel w w' E => proj1 (HardcodedHandlerDemo_effect fuel w w' E))
                HardcodedHandlerDemo_ends_on_a_zero w n 4 Hn)
      as (f1 & w1 & m1 & H1 & Hn1).
    destruct (demo_uses_one_zero HandlerSetInRuntimeDemo
                (fun fuel w w' E => proj1 (HandlerSetInRuntimeDemo_effect fuel w w' E))
                HandlerSetInRuntimeDemo_ends_on_a_zero w1 m1 3 Hn1)
      as (f2 & w2 & m2 & H2 & Hn2).
    destruct (demo_uses_one_zero FunctorDemo
                (fun fuel w w' E => proj1 (FunctorDemo_effect fuel w w' E))
                FunctorDemo_ends_on_a_zero w2 m2 2 Hn2)
      as (f3 & w3 & m3 & H3 & Hn3).
    destruct (demo_uses_one_zero EventHandlerPassedAsAnArgumentDemo
                (fun fuel w w' E =>
                   proj1 (EventHandlerPassedAsAnArgumentDemo_effect fuel w w' E))
                EventHandlerPassedAsAnArgumentDemo_ends_on_a_zero w3 m3 1 Hn3)
      as (f4 & w4 & m4 & H4 & Hn4).
    destruct (demo_uses_one_zero EventHandlerIsLambdaDemo
                (fun fuel w w' E => proj1 (EventHandlerIsLambdaDemo_effect fuel w w' E))
                EventHandlerIsLambdaDemo_ends_on_a_zero w4 m4 0 Hn4)
      as (f5 & w5 & m5 & H5 & _).
    exists (f1 + f2 + f3 + f4 + f5)%nat, 0, (snd (LambdaDemo l0 w5)).
    unfold main.
    rewrite H1 by lia. cbn [of_loop bind].
    rewrite H2 by lia. cbn [of_loop bind].
    rewrite H3 by lia. cbn [of_loop bind].
    rewrite H4 by lia. cbn [of_loop bind].
    rewrite H5 by lia. reflexivity.
Qed.

Lemma main_returns_iff_five_zeros_ahead_witness :
  Nat.le 5 (zeros_in (console (stream_of_list [61; 0; 0; 7; 0; 0; 0; 9])
                        (fun _ => 1)) 7) /\
  exists fuel code w',
    main fuel (mkLocals EmptyString EmptyString 0 0 0)
      (console (stream_of_list [61; 0; 0; 7; 0; 0; 0; 9]) (fun _ => 1)) =
    Done (code, w').
Proof.
  assert (Nat.le 5 (zeros_in (console (stream_of_list [61; 0; 0; 7; 0; 0; 0; 9])
                                (fun _ => 1)) 7)) as Hn
    by (vm_compute; apply le_n).
  split; [exact Hn |].
  exact (proj2 (main_returns_iff_five_zeros_ahead
                  (mkLocals EmptyString EmptyString 0 0 0)
                  (console (stream_of_list [61; 0; 0; 7; 0; 0; 0; 9]) (fun _ => 1)))
           (ex_intro _ 7%nat Hn)).
Defined.

(** ** The predicates and the two sorts *)

(** X9.  [Comparer] (and the lambda of [LambdaAsPredicateDemo], which has the same
    body) is a strict weak ordering, as [std::sort] requires of its
    predicate: it is irreflexive, asymmetric and transitive, and two values
    neither of which comes before the other are equal. *)
Theorem Comparer_is_a_strict_weak_ordering :
  forall (a b c : Z),
    Comparer_call a a = false /\
    (Comparer_call a b = true -> Comparer_call b a = false) /\
    (Comparer_call a b = true -> Comparer_call b c = true ->
     Comparer_call a c = true) /\
    (Comparer_call a b = false -> Comparer_call b a = false -> a = b) /\
    Comparer_call a b = (fun x y => x >? y) a b /\
    Comparer_call a b = less b a.
Proof.
  intros a b c. unfold Comparer_call, less. rewrite !Z.gtb_ltb.
  repeat split; rewrite ?Z.ltb_lt, ?Z.ltb_ge; lia.
Qed.

Lemma Comparer_is_a_strict_weak_ordering_witness :
  Comparer_call 9 6 = true /\ Comparer_call 6 9 = false.
Proof.
  split; [reflexivity |].
  exact (proj1 (proj2 (Comparer_is_a_strict_weak_ordering 9 6 0)) eq_refl).
Defined.

Lemma StronglySorted_snoc (R : Z -> Z -> Prop) (l : list Z) (a : Z) :
  StronglySorted R l -> Forall (fun y => R y a) l -> StronglySorted R (l ++ [a]).
Proof.
  induction 1 as [|x l Hs IH Hall]; intros Ha; cbn [app].
  - repeat constructor.
  - inversion Ha; subst. constructor; [now apply IH |].
    apply Forall_app. split; [exact Hall | now repeat constructor].
Qed.

Lemma ascending_reversed_is_descending (l : list Z) :
  Sorted Z.le l -> Sorted Z.ge (rev l).
Proof.
  intros Hs. apply StronglySorted_Sorted.
  apply Sorted_StronglySorted in Hs; [|intros x y z; apply Z.le_trans].
  induction Hs as [|a l Hs IH Hall]; [constructor|].
  cbn [rev]. apply StronglySorted_snoc; [exact IH |].
  apply Forall_rev. eapply Forall_impl; [|exact Hall].
  intros y Hy. cbv beta in Hy. lia.
Qed.

(** X10.  The result of a sort depends on the values only, not on their order, and
    the descending sort gives the ascending result reversed.  So the second
    sort of [PredicateDemo] and of [LambdaAsPredicateDemo] returns what a
    descending sort of the original vector would, which is the first sort's
    result read backwards. *)
Theorem descending_sort_is_ascending_sort_reversed :
  forall (l : list Z),
    std_sort Comparer_call (std_sort less l) = rev (std_sort less l) /\
    std_sort Comparer_call (std_sort less l) = std_sort Comparer_call l /\
    std_sort less (std_sort less l) = std_sort less l /\
    (forall l', Permutation l l' ->
       std_sort less l' = std_sort less l /\
       std_sort Comparer_call l' = std_sort Comparer_call l).
Proof.
  intros l.
  assert (forall l1 l2, Permutation l1 l2 ->
            std_sort less l2 = std_sort less l1 /\
            std_sort Comparer_call l2 = std_sort Comparer_call l1) as Hperm.
  { intros l1 l2 Hp. split.
    - apply (proj1 (std_sort_unique l1 (std_sort less l2)
                      (Permutation_trans Hp (std_sort_perm less l2)))).
      apply less_sorts_ascending.
    - apply (proj2 (std_sort_unique l1 (std_sort Comparer_call l2)
                      (Permutation_trans Hp (std_sort_perm Comparer_call l2)))).
      apply greater_sorts_descending. }
  repeat split.
  - symmetry.
    apply (proj2 (std_sort_unique (std_sort less l) (rev (std_sort less l))
                    (Permutation_rev _))).
    apply ascending_reversed_is_descending, less_sorts_ascending.
  - apply (Hperm l (std_sort less l)), std_sort_perm.
  - apply (Hperm l (std_sort less l)), std_sort_perm.
  - now apply Hperm.
  - now apply Hperm.
Qed.

Lemma descending_sort_is_ascending_sort_reversed_witness :
  Permutation [3; 2; 6; 9; 1; 5] [5; 1; 9; 6; 2; 3] /\
  std_sort Comparer_call [5; 1; 9; 6; 2; 3] = std_sort Comparer_call [3; 2; 6; 9; 1; 5].
Proof.
  assert (Permutation [3; 2; 6; 9; 1; 5] [5; 1; 9; 6; 2; 3]) as Hp.
  { change [5; 1; 9; 6; 2; 3] with (rev [3; 2; 6; 9; 1; 5]). apply Permutation_rev. }
  split; [exact Hp |].
  exact (proj2 (proj2 (proj2 (proj2
           (descending_sort_is_ascending_sort_reversed [3; 2; 6; 9; 1; 5]))) _ Hp)).
Defined.

(** ** [LambdaDemo] as a whole *)

(** X11.  [LambdaDemo] reads no variable before it is initialised and takes
    nothing from the console: whatever its frame held on entry, it ends with
    the same locals; it extracts no value and draws no random number; and it
    adds five lines to the output, among them what the two by-value lambdas
    print, the values their captured variables hold when they are called (50,
    then 50 and 1). *)
Theorem LambdaDemo_depends_on_nothing :
  forall (l0 : Locals) (w : World),
    fst (LambdaDemo l0 w) =
      mkLocals "Hello from lambda!" "Hello from lambda!" 50 11 22 /\
    snd (LambdaDemo l0 w) =
      prints [new_value_line 123; hello_line;
              (show_int 50 ++ endl)%string;
              (show_int 50 ++ ", " ++ show_int 1 ++ endl)%string;
              hello_line] w.
Proof.
  intros l0 w. split; [reflexivity |].
  unfold prints, LambdaDemo, exec. cbn [LambdaDemo_body fold_left].
  unfold call_by_value, call_by_reference, declare, print.
  cbn [fst snd cin cin_pos rnd rnd_pos cout threshold i set_threshold set_i
       set_j set_str set_str2].
  now rewrite <- !app_assoc.
Qed.
